(** * app_tabs.py: document indexing and conversational retrieval

    A shallow embedding of the retrieval pipeline of [app_tabs.py]
    ([list_pdfs_in_cwd], [load_docs_from_files], [split_docs],
    [_load_faiss], [build_or_load_vectorstore], [get_api_key],
    [ensure_conversation], [tidy_response], the chat submit handler and the
    two Knowledge Base buttons), followed by the properties of the
    specification that concern them.

    Python text is a sequence of code points; the filesystem, the
    environment and [st.session_state] are fields of an explicit [World];
    the third-party objects (FAISS index, embedding provider, text splitter,
    conversational chain) are the fields of the [Library] interface, since
    their code is not part of the application. *)

From Stdlib Require Import List String Ascii NArith Bool Arith Lia.
From Stdlib Require Import Sorted Permutation.
Import ListNotations.

(** ** Python [str] *)

Module Text.

(** A Python string: its code points. *)
Definition str := list N.

(** An ASCII literal of the source as a Python string. *)
Fixpoint of_string (s : string) : str :=
  match s with
  | EmptyString => []
  | String a s' => N_of_ascii a :: of_string s'
  end.

(** [str.isspace] on one code point: the code points that [str.strip()]
    removes. *)
Definition isspace (c : N) : bool :=
  ((9 <=? c) && (c <=? 13) || (28 <=? c) && (c <=? 32)
   || (c =? 133) || (c =? 160) || (c =? 5760)
   || (8192 <=? c) && (c <=? 8202)
   || (c =? 8232) || (c =? 8233) || (c =? 8239) || (c =? 8287)
   || (c =? 12288))%N.

Fixpoint lstrip (s : str) : str :=
  match s with
  | [] => []
  | c :: s' => if isspace c then lstrip s' else s
  end.

Definition rstrip (s : str) : str := rev (lstrip (rev s)).

(** [s.strip()] *)
Definition strip (s : str) : str := rstrip (lstrip s).

(** Truth value of a string: [bool(s)]. *)
Definition truthy (s : str) : bool :=
  match s with [] => false | _ :: _ => true end.

(** [a or b] on strings. *)
Definition py_or (a b : str) : str := if truthy a then a else b.

Fixpoint eqb (s t : str) : bool :=
  match s, t with
  | [], [] => true
  | a :: s', b :: t' => (a =? b)%N && eqb s' t'
  | _, _ => false
  end.

(** [s <= t] in the order of [sorted]: lexicographic on code points. *)
Fixpoint leb (s t : str) : bool :=
  match s, t with
  | [], _ => true
  | _ :: _, [] => false
  | a :: s', b :: t' => (a <? b)%N || ((a =? b)%N && leb s' t')
  end.

Fixpoint startswith (s prefix : str) : bool :=
  match prefix, s with
  | [], _ => true
  | _ :: _, [] => false
  | p :: prefix', c :: s' => (c =? p)%N && startswith s' prefix'
  end.

Definition endswith (s suffix : str) : bool :=
  startswith (rev s) (rev suffix).

(** [str.lower] on one code point. Outside ASCII the code point is kept:
    the only use is [f.lower().endswith(".pdf")], and no code point outside
    ASCII lowers to one of the four characters of that suffix. *)
Definition lower_char (c : N) : N :=
  if ((65 <=? c) && (c <=? 90))%N then (c + 32)%N else c.

Definition lower (s : str) : str := map lower_char s.

(** [s.replace(old, new)] for a non-empty [old]: occurrences are replaced
    from the left and do not overlap. [skip] counts the characters of the
    occurrence just replaced that are still to pass over. *)
Fixpoint replace_from (old new : str) (skip : nat) (s : str) : str :=
  match s with
  | [] => []
  | c :: s' =>
      match skip with
      | S k => replace_from old new k s'
      | O =>
          if startswith s old
          then new ++ replace_from old new (List.length old - 1) s'
          else c :: replace_from old new 0 s'
      end
  end.

Definition replace (s old new : str) : str := replace_from old new 0 s.

Fixpoint until_slash (s : str) : str :=
  match s with
  | [] => []
  | c :: s' => if (c =? 47)%N then [] else c :: until_slash s'
  end.

(** [os.path.basename]: what follows the last ['/']. *)
Definition basename (p : str) : str := rev (until_slash (rev p)).

Fixpoint insert_sorted (x : str) (l : list str) : list str :=
  match l with
  | [] => [x]
  | y :: l' => if leb x y then x :: l else y :: insert_sorted x l'
  end.

(** [sorted] on a list of strings. *)
Definition sorted (l : list str) : list str :=
  fold_right insert_sorted [] l.

End Text.

Import Text.

(** ** Exceptions, documents, files *)

(** The exceptions the source tells apart: [_load_faiss] catches
    [TypeError], the other handlers catch any [Exception]. *)
Inductive exn : Type :=
| TypeError (msg : str)
| OtherError (msg : str).

(** [str(e)] *)
Definition exn_str (e : exn) : str :=
  match e with TypeError m => m | OtherError m => m end.

Definition is_TypeError (e : exn) : bool :=
  match e with TypeError _ => true | OtherError _ => false end.

(** A langchain [Document]: [page_content] and the metadata
    [{"source": ..., "page": ...}]. Chunks are Documents too. *)
Record Document : Type := mkDocument {
  page_content : str;
  source : str;
  page : nat
}.

(** What [page.extract_text()] does on one page. *)
Inductive extraction : Type :=
| ExtractRaises (e : exn)
| ExtractReturns (text : option str).

(** What [PdfReader(f)] does on one file. *)
Inductive pdf_read : Type :=
| ReaderRaises (e : exn)
| ReaderPages (pages : list extraction).

(** One entry of the working directory. *)
Record dir_entry : Type := mkEntry {
  entry_name : str;
  entry_isfile : bool;
  entry_pdf : pdf_read
}.

(** [metadata.json] *)
Record Metadata : Type := mkMetadata {
  built_at : str;
  pdf_files : list str
}.

(** One message of [st.session_state.messages]. *)
Record Message : Type := mkMessage {
  role : string;
  content : str
}.

(** ** The third-party libraries *)

(** The outcome of a call that may raise. *)
Inductive result (A : Type) : Type :=
| Ok (a : A)
| Raise (e : exn).

Arguments Ok {A} a.
Arguments Raise {A} e.

(** What the application uses of langchain, FAISS and the OpenAI client.
    Their code is not the application's: the pipeline is stated for every
    implementation of this interface.
    - [FAISS_load_local files key allow] is [FAISS.load_local] on the
      contents of the directory ([None] when the path does not exist), with
      or without the keyword [allow_dangerous_deserialization];
    - [FAISS_from_documents chunks key] embeds the chunks and builds the
      index;
    - [save_local vs] is what [vs.save_local] writes;
    - [split_text chunk_size chunk_overlap text] is
      [RecursiveCharacterTextSplitter(...).split_text];
    - [from_llm vs key] is the chain [make_chain] constructs, with a fresh
      [ConversationBufferMemory];
    - [invoke c q] is [c({"question": q})]: the chain after the call (its
      memory is the chain's own) and either the exception raised or the
      value of [result.get("answer")]. *)
Class Library : Type := {
  FAISS : Type;
  IndexFiles : Type;
  Chain : Type;
  FAISS_load_local : option IndexFiles -> str -> bool -> result FAISS;
  FAISS_from_documents : list Document -> str -> result FAISS;
  save_local : FAISS -> IndexFiles;
  split_text : nat -> nat -> str -> list str;
  from_llm : FAISS -> str -> Chain;
  invoke : Chain -> str -> Chain * result (option str)
}.

(** ** The world of one session *)

Section Pipeline.

Context {L : Library}.

(** The directory [VECTORSTORE_DIR]: the index files and [metadata.json]. *)
Record StoreDir : Type := mkStoreDir {
  index_files : IndexFiles;
  metadata_json : option Metadata
}.

(** [st.session_state]. A key that was never set is [None]; [rag_status] is
    one of the literals of the source. *)
Record Session : Type := mkSession {
  messages : list Message;
  conversation : option Chain;
  rag_status : string;
  input_key : nat;
  OPENAI_API_KEY_OVERRIDE : option str
}.

(** What the program does to its surroundings, most recent first. *)
Inductive event : Type :=
| Getenv
| ListDir
| OpenPdf (pdf : str)
| Warning (msg : str)
| LoadLocal (allow : bool)
| FromDocuments (chunks : list Document)
| SaveLocal
| WriteMetadata (m : Metadata)
| Rmtree
| Ask (q : str)
| ErrorBox (msg : str)
| SuccessBox (msg : str).

(** The surroundings of the program and its session.
    - [vectorstore] is the directory [VECTORSTORE_DIR] when the path is a
      directory, and [None] when [os.path.isdir] is false;
    - [vectorstore_is_file] says that the path exists without being a
      directory (a regular file of that name); it is read only when there is
      no directory;
    - [rmtree_leaves d] is what [shutil.rmtree(VECTORSTORE_DIR,
      ignore_errors=True)] leaves of the directory [d]: [None] when it is
      removed; errors are ignored, so the directory, or a part of it, may
      stay. *)
Record World : Type := mkWorld {
  cwd : list dir_entry;
  vectorstore : option StoreDir;
  OPENAI_API_KEY : option str;
  now : str;
  session_state : Session;
  trace : list event;
  vectorstore_is_file : bool;
  rmtree_leaves : StoreDir -> option StoreDir
}.

Definition set_vectorstore (v : option StoreDir) (w : World) : World :=
  mkWorld (cwd w) v (OPENAI_API_KEY w) (now w) (session_state w) (trace w)
    (vectorstore_is_file w) (rmtree_leaves w).

Definition set_session (s : Session) (w : World) : World :=
  mkWorld (cwd w) (vectorstore w) (OPENAI_API_KEY w) (now w) s (trace w)
    (vectorstore_is_file w) (rmtree_leaves w).

Definition set_trace (t : list event) (w : World) : World :=
  mkWorld (cwd w) (vectorstore w) (OPENAI_API_KEY w) (now w)
    (session_state w) t (vectorstore_is_file w) (rmtree_leaves w).

Definition set_cwd (d : list dir_entry) (w : World) : World :=
  mkWorld d (vectorstore w) (OPENAI_API_KEY w) (now w) (session_state w)
    (trace w) (vectorstore_is_file w) (rmtree_leaves w).

Definition set_vectorstore_is_file (b : bool) (w : World) : World :=
  mkWorld (cwd w) (vectorstore w) (OPENAI_API_KEY w) (now w)
    (session_state w) (trace w) b (rmtree_leaves w).

Definition set_rmtree_leaves (f : StoreDir -> option StoreDir) (w : World)
  : World :=
  mkWorld (cwd w) (vectorstore w) (OPENAI_API_KEY w) (now w)
    (session_state w) (trace w) (vectorstore_is_file w) f.

Definition set_messages (m : list Message) (s : Session) : Session :=
  mkSession m (conversation s) (rag_status s) (input_key s)
    (OPENAI_API_KEY_OVERRIDE s).

Definition set_conversation (c : option Chain) (s : Session) : Session :=
  mkSession (messages s) c (rag_status s) (input_key s)
    (OPENAI_API_KEY_OVERRIDE s).

Definition set_rag_status (r : string) (s : Session) : Session :=
  mkSession (messages s) (conversation s) r (input_key s)
    (OPENAI_API_KEY_OVERRIDE s).

(** The session as lines 171-174 initialise it. *)
Definition init_session : Session :=
  mkSession [] None "init" 0 None.

(** ** Computations: state and exceptions *)

(** A computation runs in a world and returns or raises; what it did to
    the world before raising stays done. *)
Definition M (A : Type) : Type := World -> result A * World.

Definition ret {A : Type} (a : A) : M A := fun w => (Ok a, w).

Definition raise {A : Type} (e : exn) : M A := fun w => (Raise e, w).

Definition bind {A B : Type} (c : M A) (k : A -> M B) : M B :=
  fun w =>
    match c w with
    | (Ok a, w') => k a w'
    | (Raise e, w') => (Raise e, w')
    end.

(** [try: c  except Exception as e: h e] *)
Definition try_except {A : Type} (c : M A) (h : exn -> M A) : M A :=
  fun w =>
    match c w with
    | (Ok a, w') => (Ok a, w')
    | (Raise e, w') => h e w'
    end.

Definition gets {A : Type} (f : World -> A) : M A := fun w => (Ok (f w), w).

Definition modify (f : World -> World) : M unit := fun w => (Ok tt, f w).

Definition emit (ev : event) : M unit :=
  modify (fun w => set_trace (ev :: trace w) w).

Definition lift {A : Type} (r : result A) : M A := fun w => (r, w).

Definition update_session (f : Session -> Session) : M unit :=
  modify (fun w => set_session (f (session_state w)) w).

End Pipeline.

Notation "'do' x <- c ; k" := (bind c (fun x => k))
  (at level 10, x name, c at level 100, k at level 200).

(** ** The pipeline *)

Section Functions.

Context {L : Library}.

(** [os.path.isfile(f)] in the working directory. *)
Definition isfile (w : World) (f : str) : bool :=
  existsb (fun e => Text.eqb (entry_name e) f && entry_isfile e) (cwd w).

(** [list_pdfs_in_cwd], lines 49-50. *)
Definition pdfs_of (w : World) : list str :=
  filter (fun f => isfile w f && endswith (lower f) (of_string ".pdf"))
    (Text.sorted (map entry_name (cwd w))).

Definition list_pdfs_in_cwd : M (list str) :=
  do _ <- emit ListDir ;
  gets pdfs_of.

(** [PdfReader(pdf)]: what the file of that name holds. *)
Definition PdfReader (w : World) (pdf : str) : pdf_read :=
  match find (fun e => Text.eqb (entry_name e) pdf) (cwd w) with
  | Some e => entry_pdf e
  | None => ReaderRaises (OtherError (of_string "No such file or directory"))
  end.

(** [page.extract_text() or ""] *)
Definition extract_text_or_empty (t : option str) : str :=
  match t with
  | Some s => py_or s []
  | None => []
  end.

(** The inner loop of [load_docs_from_files], lines 95-98, from page index
    [i] on: the documents appended to [docs], and the exception that ended
    the loop if one was raised. *)
Fixpoint read_pages (pdf : str) (i : nat) (pages : list extraction)
  (docs : list Document) : list Document * option exn :=
  match pages with
  | [] => (docs, None)
  | ExtractRaises e :: _ => (docs, Some e)
  | ExtractReturns t :: rest =>
      let text := extract_text_or_empty t in
      read_pages pdf (S i) rest
        (if truthy (strip text)
         then docs ++ [mkDocument text (basename pdf) (i + 1)]
         else docs)
  end.

(** [f"Could not read {pdf}: {e}"] *)
Definition could_not_read (pdf : str) (e : exn) : str :=
  of_string "Could not read " ++ pdf ++ of_string ": " ++ exn_str e.

(** The body of the outer loop for one file, lines 93-100. *)
Definition read_pdf (pdf : str) (docs : list Document) : M (list Document) :=
  do r <- gets (fun w => PdfReader w pdf) ;
  do _ <- emit (OpenPdf pdf) ;
  match r with
  | ReaderRaises e =>
      do _ <- emit (Warning (could_not_read pdf e)) ; ret docs
  | ReaderPages pages =>
      match read_pages pdf 0 pages docs with
      | (docs', Some e) =>
          do _ <- emit (Warning (could_not_read pdf e)) ; ret docs'
      | (docs', None) => ret docs'
      end
  end.

Fixpoint load_docs_loop (pdf_files : list str) (docs : list Document)
  : M (list Document) :=
  match pdf_files with
  | [] => ret docs
  | pdf :: rest =>
      do docs' <- read_pdf pdf docs ;
      load_docs_loop rest docs'
  end.

(** [load_docs_from_files], lines 90-101. *)
Definition load_docs_from_files (pdf_files : list str) : M (list Document) :=
  load_docs_loop pdf_files [].

(** [TextSplitter.split_documents]: the text of each Document goes through
    [split_text], and every piece is a Document with the metadata of the
    Document it comes from. *)
Definition split_documents (chunk_size chunk_overlap : nat)
  (docs : list Document) : list Document :=
  flat_map
    (fun d =>
       map (fun c => mkDocument c (source d) (page d))
         (split_text chunk_size chunk_overlap (page_content d)))
    docs.

(** [split_docs], lines 103-105. *)
Definition split_docs (docs : list Document) : list Document :=
  split_documents 1000 200 docs.

(** [FAISS.load_local(VECTORSTORE_DIR, embeddings, ...)] *)
Definition load_local (api_key : str) (allow : bool) : M FAISS :=
  do files <- gets (fun w => option_map index_files (vectorstore w)) ;
  do _ <- emit (LoadLocal allow) ;
  lift (FAISS_load_local files api_key allow).

(** [_load_faiss], lines 43-47, on the path [VECTORSTORE_DIR]. *)
Definition _load_faiss (api_key : str) : M FAISS :=
  try_except (load_local api_key true)
    (fun e => if is_TypeError e then load_local api_key false else raise e).

(** [os.path.isdir(VECTORSTORE_DIR)] *)
Definition isdir_vectorstore (w : World) : bool :=
  match vectorstore w with Some _ => true | None => false end.

(** [FileExistsError], as [os.makedirs] raises it. *)
Definition file_exists_error : exn :=
  OtherError (of_string "[Errno 17] File exists: 'vectorstore'").

(** [os.makedirs(VECTORSTORE_DIR, exist_ok=True)], line 123: nothing to do
    when the directory is there, [FileExistsError] when the path is taken
    by something that is not a directory. The directory it creates is
    filled by the two writes that follow. *)
Definition makedirs_vectorstore : M unit :=
  do isdir <- gets isdir_vectorstore ;
  if isdir then ret tt
  else
    do is_file <- gets vectorstore_is_file ;
    if is_file then raise file_exists_error else ret tt.

(** Lines 123-126: the directory made, then the index and [metadata.json]
    written to it. The two writes are taken to succeed. *)
Definition persist (vs : FAISS) (pdfs : list str) : M unit :=
  do _ <- makedirs_vectorstore ;
  do _ <- emit SaveLocal ;
  do t <- gets now ;
  let meta := mkMetadata t pdfs in
  do _ <- emit (WriteMetadata meta) ;
  modify (set_vectorstore (Some (mkStoreDir (save_local vs) (Some meta)))).

(** [build_or_load_vectorstore], lines 107-127. [None] is Python's [None]. *)
Definition build_or_load_vectorstore (api_key : str) : M (option FAISS) :=
  do isdir <- gets isdir_vectorstore ;
  if isdir then
    do vs <- _load_faiss api_key ; ret (Some vs)
  else
    do pdfs <- list_pdfs_in_cwd ;
    match pdfs with
    | [] => ret None
    | _ :: _ =>
        do docs <- load_docs_from_files pdfs ;
        match docs with
        | [] => ret None
        | _ :: _ =>
            let chunks := split_docs docs in
            do _ <- emit (FromDocuments chunks) ;
            do vs <- lift (FAISS_from_documents chunks api_key) ;
            do _ <- persist vs pdfs ;
            ret (Some vs)
        end
    end.

(** [make_chain], lines 129-137. *)
Definition make_chain (vs : FAISS) (api_key : str) : Chain :=
  from_llm vs api_key.

Definition get_or_empty (v : option str) : str :=
  match v with Some s => s | None => [] end.

(** [get_api_key], lines 139-142. The environment is read only when the
    left operand of [or] is false. *)
Definition get_api_key : M str :=
  do override <- gets (fun w =>
     get_or_empty (OPENAI_API_KEY_OVERRIDE (session_state w))) ;
  do key <-
    (if truthy override then ret override
     else do _ <- emit Getenv ;
          gets (fun w => get_or_empty (OPENAI_API_KEY w))) ;
  ret (strip key).

(** [ensure_conversation], lines 144-157. *)
Definition ensure_conversation : M unit :=
  do convo <- gets (fun w => conversation (session_state w)) ;
  match convo with
  | Some _ => ret tt
  | None =>
      do api_key <- get_api_key ;
      if negb (truthy api_key) then
        update_session (set_rag_status "missing_key")
      else
        do vs <- build_or_load_vectorstore api_key ;
        match vs with
        | None => update_session (set_rag_status "no_pdfs")
        | Some vs =>
            do _ <- update_session
                 (set_conversation (Some (make_chain vs api_key))) ;
            update_session (set_rag_status "ready")
        end
  end.

End Functions.

(** ** The chat and the Knowledge Base buttons *)

Section Interface.

Context {L : Library}.

(** [tidy_response], lines 159-168. *)
Definition tidy_response (text : str) : str :=
  if negb (truthy text) then []
  else
    let text := strip text in
    let text := Text.replace text (10%N :: of_string "-")
                  (10%N :: 10%N :: of_string "-") in
    let text := Text.replace text (of_string "** ") (of_string "**") in
    let text := Text.replace text (of_string " **") (of_string "**") in
    text.

(** The warning sign that opens the guidance messages: U+26A0 U+FE0F. *)
Definition warning_sign : str := [9888%N; 65039%N].

Definition missing_key_message : str :=
  warning_sign ++ of_string
    " RAG unavailable: Please set your OPENAI_API_KEY in the Settings tab.".

Definition no_pdfs_message : str :=
  warning_sign ++ of_string
    " RAG unavailable: Please add PDFs in the Knowledge Base tab and rebuild the index.".

Definition not_ready_message : str :=
  warning_sign ++ of_string
    " RAG not ready. Please check Settings and Knowledge Base.".

(** Lines 461-466. *)
Definition guidance (status : string) : str :=
  if String.eqb status "missing_key" then missing_key_message
  else if String.eqb status "no_pdfs" then no_pdfs_message
  else not_ready_message.

(** [f"(RAG error: {e})"] *)
Definition rag_error (e : exn) : str :=
  of_string "(RAG error: " ++ exn_str e ++ of_string ")".

(** [result.get("answer", "(no answer returned)")] *)
Definition get_answer (r : option str) : str :=
  match r with
  | Some a => a
  | None => of_string "(no answer returned)"
  end.

(** [st.session_state.messages.append({"role": r, "content": c})] *)
Definition append_message (r : string) (c : str) : M unit :=
  update_session (fun s => set_messages (messages s ++ [mkMessage r c]) s).

(** [convo({"question": q})], line 456. The chain is the object the session
    holds: what the call does to it is seen through the session. *)
Definition call_chain (convo : Chain) (q : str) : M (option str) :=
  do _ <- emit (Ask q) ;
  let (convo', r) := invoke convo q in
  do _ <- update_session (set_conversation (Some convo')) ;
  lift r.

(** The chat submit handler, lines 449-469. The value is [true] when
    [st.rerun()] is reached. *)
Definition chat_submit (submitted : bool) (q : str) : M bool :=
  if submitted && truthy (strip q) then
    do _ <- append_message "user" q ;
    do convo <- gets (fun w => conversation (session_state w)) ;
    do status <- gets (fun w => rag_status (session_state w)) ;
    do answer <-
      match convo with
      | Some c =>
          try_except
            (do r <- call_chain c q ; ret (get_answer r))
            (fun e => ret (rag_error e))
      | None => ret (guidance status)
      end ;
    let formatted := tidy_response answer in
    do _ <- append_message "assistant" formatted ;
    ret true
  else ret false.

(** The world as [shutil.rmtree(VECTORSTORE_DIR, ignore_errors=True)]
    leaves it. The call never raises. A directory is afterwards what
    [rmtree_leaves] says: gone, or what could not be removed; a path it has
    been a directory of is not a regular file. Anything else is left as it
    is. *)
Definition after_rmtree (w : World) : World :=
  set_vectorstore_is_file
    (match vectorstore w with
     | Some _ => false
     | None => vectorstore_is_file w
     end)
    (set_vectorstore
       (match vectorstore w with
        | Some d => rmtree_leaves w d
        | None => None
        end) w).

(** [shutil.rmtree(VECTORSTORE_DIR, ignore_errors=True)], line 578. *)
Definition rmtree_vectorstore : M unit :=
  do _ <- emit Rmtree ; modify after_rmtree.

(** The button "Rebuild Knowledge Base", lines 571-585. *)
Definition rebuild_knowledge_base : M unit :=
  do api_key <- get_api_key ;
  if negb (truthy api_key) then
    emit (ErrorBox (of_string "Set OPENAI_API_KEY in Settings first."))
  else
    do isdir <- gets isdir_vectorstore ;
    do _ <- (if isdir then rmtree_vectorstore else ret tt) ;
    do vs <- build_or_load_vectorstore api_key ;
    match vs with
    | Some vs =>
        do _ <- update_session
             (set_conversation (Some (make_chain vs api_key))) ;
        do _ <- update_session (set_rag_status "ready") ;
        emit (SuccessBox (of_string "Knowledge base rebuilt."))
    | None =>
        emit (ErrorBox
                (of_string "No PDFs found or failed to build vectorstore."))
    end.

(** The button "Clear Chat History", lines 587-589. *)
Definition clear_chat_history : M unit :=
  do _ <- update_session (set_messages []) ;
  emit (SuccessBox (of_string "Cleared.")).

(** [n] calls of [ensure_conversation] in a row, stopping at the first that
    raises. *)
Fixpoint ensure_conversation_times (n : nat) : M unit :=
  match n with
  | O => ret tt
  | S n' => do _ <- ensure_conversation ; ensure_conversation_times n'
  end.

(** The events of one kind in a trace. *)
Definition is_LoadLocal (ev : event) : bool :=
  match ev with LoadLocal _ => true | _ => false end.

Definition extraction_event (ev : event) : bool :=
  match ev with OpenPdf _ | Warning _ => true | _ => false end.

End Interface.

(** ** Vocabulary of the statements *)

Section Vocabulary.

Context {L : Library}.

(** The documents [read_pages] collects from the page of index [i] on. *)
Definition pages_docs (pdf : str) (i : nat) (pages : list extraction)
  : list Document :=
  fst (read_pages pdf i pages []).

(** The documents one file contributes. *)
Definition file_docs (w : World) (pdf : str) : list Document :=
  match PdfReader w pdf with
  | ReaderRaises _ => []
  | ReaderPages pages => pages_docs pdf 0 pages
  end.

(** The documents a list of files contributes. *)
Definition docs_of (w : World) (pdf_files : list str) : list Document :=
  flat_map (file_docs w) pdf_files.

(** The texts [extract_text() or ""] returns for the pages of a file, up to
    the first page whose extraction raises. *)
Fixpoint extracted_texts (pages : list extraction) : list str :=
  match pages with
  | [] => []
  | ExtractRaises _ :: _ => []
  | ExtractReturns t :: rest => extract_text_or_empty t :: extracted_texts rest
  end.

Definition page_texts (w : World) (pdf : str) : list str :=
  match PdfReader w pdf with
  | ReaderRaises _ => []
  | ReaderPages pages => extracted_texts pages
  end.

(** A text with a character that is not white space. *)
Definition nonblank (t : str) : bool := truthy (strip t).

(** No page of the listed PDFs yields text that is not white space. *)
Definition no_extractable_text (w : World) : Prop :=
  forall pdf t,
    In pdf (pdfs_of w) -> In t (page_texts w pdf) -> nonblank t = false.

(** The Document of the page of index [k] whose text is [t]. *)
Definition page_document (pdf : str) (it : nat * str) : Document :=
  mkDocument (snd it) (basename pdf) (fst it + 1).

(** The texts of a file with the index of their page, from index [i]. *)
Definition enumerate_from (i : nat) (texts : list str) : list (nat * str) :=
  combine (seq i (List.length texts)) texts.

(** The answer text the handler makes of one call of the chain. *)
Definition answer_of (r : result (option str)) : str :=
  match r with
  | Ok a => get_answer a
  | Raise e => rag_error e
  end.

(** What [_load_faiss] makes of the two attempts of [FAISS.load_local]. *)
Definition load_outcome (files : option IndexFiles) (api_key : str)
  : result FAISS :=
  match FAISS_load_local files api_key true with
  | Ok vs => Ok vs
  | Raise e =>
      if is_TypeError e then FAISS_load_local files api_key false
      else Raise e
  end.

(** The value of [build_or_load_vectorstore] in a world, as a function of
    the files and of what the libraries answer. *)
Definition index_outcome (api_key : str) (w : World) : result (option FAISS) :=
  match vectorstore w with
  | Some d =>
      match load_outcome (Some (index_files d)) api_key with
      | Ok vs => Ok (Some vs)
      | Raise e => Raise e
      end
  | None =>
      match pdfs_of w, docs_of w (pdfs_of w) with
      | [], _ => Ok None
      | _ :: _, [] => Ok None
      | _ :: _, docs =>
          match FAISS_from_documents (split_docs docs) api_key with
          | Ok vs =>
              if vectorstore_is_file w then Raise file_exists_error
              else Ok (Some vs)
          | Raise e => Raise e
          end
      end
  end.

(** The directory [VECTORSTORE_DIR] after [build_or_load_vectorstore]. *)
Definition index_store (api_key : str) (w : World) : option StoreDir :=
  match vectorstore w, index_outcome api_key w with
  | None, Ok (Some vs) =>
      Some (mkStoreDir (save_local vs)
              (Some (mkMetadata (now w) (pdfs_of w))))
  | v, _ => v
  end.

(** The key [get_api_key] returns in a world. *)
Definition api_key_of (w : World) : str :=
  strip (py_or (get_or_empty (OPENAI_API_KEY_OVERRIDE (session_state w)))
               (get_or_empty (OPENAI_API_KEY w))).

(** What one call of [ensure_conversation] returns and leaves in the session
    and in [VECTORSTORE_DIR], as a function of the world. *)
Definition ensure_outcome (w : World)
  : result unit * Session * option StoreDir :=
  let s := session_state w in
  match conversation s with
  | Some _ => (Ok tt, s, vectorstore w)
  | None =>
      let key := api_key_of w in
      if negb (truthy key)
      then (Ok tt, set_rag_status "missing_key" s, vectorstore w)
      else
        match index_outcome key w with
        | Raise e => (Raise e, s, vectorstore w)
        | Ok None => (Ok tt, set_rag_status "no_pdfs" s, vectorstore w)
        | Ok (Some vs) =>
            (Ok tt,
             set_rag_status "ready"
               (set_conversation (Some (make_chain vs key)) s),
             index_store key w)
        end
  end.

(** In a session that is [ready] there is a chain. *)
Definition ready_has_chain (s : Session) : Prop :=
  rag_status s = "ready"%string -> conversation s <> None.

(** Two worlds with the same files, environment and clock. *)
Definition same_surroundings (w w' : World) : Prop :=
  cwd w' = cwd w /\ vectorstore w' = vectorstore w /\
  OPENAI_API_KEY w' = OPENAI_API_KEY w /\ now w' = now w.

End Vocabulary.

(** ** An implementation of the library interface, for concrete runs *)

Module Demo.

(** A small instance: an index is the list of its chunks, a directory holds
    the chunks saved or nothing readable, a chain is its index and the
    question-answer pairs of its memory; a question that starts with ['!']
    makes the provider fail. *)
Definition demo_split (chunk_size chunk_overlap : nat) (t : str) : list str :=
  match t with [] => [] | _ :: _ => [firstn chunk_size t] end.

Definition demo_invoke (c : list Document * list (str * str)) (q : str)
  : (list Document * list (str * str)) * result (option str) :=
  if startswith q (of_string "!")
  then (c, Raise (OtherError (of_string "provider unreachable")))
  else ((fst c, snd c ++ [(q, of_string "ok")]), Ok (Some (of_string "ok"))).

#[local] Instance demo_library : Library := {|
  FAISS := list Document;
  IndexFiles := option (list Document);
  Chain := list Document * list (str * str);
  FAISS_load_local := fun files _ _ =>
    match files with
    | Some (Some chunks) => Ok chunks
    | Some None => Raise (OtherError (of_string "could not read index"))
    | None => Raise (OtherError (of_string "no such directory"))
    end;
  FAISS_from_documents := fun chunks _ =>
    match chunks with
    | [] => Raise (OtherError (of_string "no texts to embed"))
    | _ :: _ => Ok chunks
    end;
  save_local := fun vs => Some vs;
  split_text := demo_split;
  from_llm := fun vs _ => (vs, []);
  invoke := demo_invoke
|}.

Definition soil : str := of_string "Soil bearing capacity...".

Definition demo_key : str := of_string "sk-demo".

(** One PDF with the pages ["Soil bearing capacity...", ""]. *)
Definition soil_pdf : dir_entry :=
  mkEntry (of_string "soil.pdf") true
    (ReaderPages [ExtractReturns (Some soil); ExtractReturns (Some [])]).

Definition world_with (files : list dir_entry)
  (store : option StoreDir) (env : option str) (s : Session) : World :=
  mkWorld files store env (of_string "2025-01-01T00:00:00") s [] false
    (fun _ => None).

(** A fresh session, a key in the environment, one PDF, no index yet. *)
Definition fresh_world : World :=
  world_with [soil_pdf] None (Some demo_key) init_session.

(** The same with an empty directory. *)
Definition empty_world : World :=
  world_with [] None (Some demo_key) init_session.

(** A directory [vectorstore/] that holds nothing readable. *)
Definition corrupt_world : World :=
  world_with [soil_pdf] (Some (mkStoreDir None None))
    (Some demo_key) init_session.

(** A directory [vectorstore/] with a saved index. *)
Definition stored_world : World :=
  world_with []
    (Some (mkStoreDir (Some [mkDocument soil (of_string "old.pdf") 1]) None))
    (Some demo_key) init_session.

(** A session whose override is one space, with a key in the environment. *)
Definition blank_override_world : World :=
  world_with [soil_pdf] None (Some demo_key)
    (mkSession [] None "init" 0 (Some (of_string " "))).

(** The world after [ensure_conversation] in [fresh_world]. *)
Definition ready_world : World :=
  Eval vm_compute in snd (ensure_conversation fresh_world).

(** The world after [ensure_conversation] in [empty_world], once a PDF has
    been put in the directory. *)
Definition pdf_added_world : World :=
  Eval vm_compute in set_cwd [soil_pdf] (snd (ensure_conversation empty_world)).

(** [fresh_world] with a regular file named [vectorstore] where the index
    directory would be created. *)
Definition blocked_world : World :=
  set_vectorstore_is_file true fresh_world.

End Demo.

(** ** The photo directories *)

(** What a path other than the working directory is. *)
Inductive path_state : Type :=
| Missing
| RegularFile
| Directory (names : list str).

(** [os.path.exists(path)] *)
Definition path_exists (p : path_state) : bool :=
  match p with Missing => false | RegularFile | Directory _ => true end.

(** [os.listdir(path)] *)
Definition listdir (p : path_state) : result (list str) :=
  match p with
  | Directory names => Ok names
  | Missing => Raise (OtherError (of_string "No such file or directory"))
  | RegularFile => Raise (OtherError (of_string "Not a directory"))
  end.

(** [os.makedirs(path, exist_ok=True)]: the outcome and the path afterwards. *)
Definition makedirs_exist_ok (p : path_state) : result unit * path_state :=
  match p with
  | Missing => (Ok tt, Directory [])
  | Directory _ => (Ok tt, p)
  | RegularFile => (Raise (OtherError (of_string "File exists")), p)
  end.

(** [os.path.join(a, b)] *)
Definition path_join (a b : str) : str :=
  if startswith b (of_string "/") then b
  else if negb (truthy a) || endswith a (of_string "/") then a ++ b
  else a ++ of_string "/" ++ b.

(** The tuple [exts] of lines 53 and 60. *)
Definition exts : list str :=
  [of_string ".png"; of_string ".jpg"; of_string ".jpeg"; of_string ".webp"].

(** [s.endswith(suffixes)] for a tuple of suffixes. As for [".pdf"], no code
    point outside ASCII lowers to a character of these suffixes. *)
Definition endswith_any (s : str) (suffixes : list str) : bool :=
  existsb (endswith s) suffixes.

(** The comprehension of lines 55 and 63. *)
Definition image_paths (directory : str) (names : list str) : list str :=
  map (path_join directory)
    (filter (fun f => endswith_any (lower f) exts) (Text.sorted names)).

(** [list_images_from_dir], lines 58-64. *)
Definition list_images_from_dir (p : path_state) (directory : str)
  : result (list str) :=
  if negb (path_exists p) then Ok []
  else
    match listdir p with
    | Ok names => Ok (image_paths directory names)
    | Raise e => Raise e
    end.

Definition PHOTOS_DIR : str := of_string "photos".

(** [list_images], lines 52-56, on the state of [PHOTOS_DIR]: the value and
    the state of the path afterwards. *)
Definition list_images (p : path_state) : result (list str) * path_state :=
  match makedirs_exist_ok p with
  | (Raise e, p') => (Raise e, p')
  | (Ok _, p') =>
      match listdir p' with
      | Ok names => (Ok (image_paths PHOTOS_DIR names), p')
      | Raise e => (Raise e, p')
      end
  end.

(** ** Vocabulary of the further statements *)

Section MoreVocabulary.

Context {L : Library}.

(** The exception that ends the reading of one file, if any. *)
Definition file_error (w : World) (pdf : str) : option exn :=
  match PdfReader w pdf with
  | ReaderRaises e => Some e
  | ReaderPages pages => snd (read_pages pdf 0 pages [])
  end.

(** The events of reading one file, most recent first. *)
Definition file_events (w : World) (pdf : str) : list event :=
  match file_error w pdf with
  | Some e => [Warning (could_not_read pdf e); OpenPdf pdf]
  | None => [OpenPdf pdf]
  end.

(** The events of reading a list of files, most recent first. *)
Definition load_events (w : World) (pdf_files : list str) : list event :=
  flat_map (file_events w) (rev pdf_files).

Definition is_OpenPdf (ev : event) : bool :=
  match ev with OpenPdf _ => true | _ => false end.

Definition is_Warning (ev : event) : bool :=
  match ev with Warning _ => true | _ => false end.

Definition is_FromDocuments (ev : event) : bool :=
  match ev with FromDocuments _ => true | _ => false end.

Definition writes_index (ev : event) : bool :=
  match ev with SaveLocal | WriteMetadata _ => true | _ => false end.

(** The events of [build_or_load_vectorstore] when there is no index
    directory, most recent first. *)
Definition build_events (api_key : str) (w : World) : list event :=
  match pdfs_of w with
  | [] => [ListDir]
  | _ :: _ =>
      match docs_of w (pdfs_of w) with
      | [] => load_events w (pdfs_of w) ++ [ListDir]
      | _ :: _ =>
          let chunks := split_docs (docs_of w (pdfs_of w)) in
          match FAISS_from_documents chunks api_key with
          | Ok _ =>
              if vectorstore_is_file w
              then
                FromDocuments chunks :: load_events w (pdfs_of w) ++ [ListDir]
              else
                WriteMetadata (mkMetadata (now w) (pdfs_of w)) :: SaveLocal
                :: FromDocuments chunks
                :: load_events w (pdfs_of w) ++ [ListDir]
          | Raise _ =>
              FromDocuments chunks :: load_events w (pdfs_of w) ++ [ListDir]
          end
      end
  end.

(** A log made of exchanges: a user message, then the assistant's. *)
Fixpoint exchanges (log : list Message) : bool :=
  match log with
  | [] => true
  | u :: rest =>
      match rest with
      | [] => false
      | a :: rest' =>
          String.eqb (role u) "user" && String.eqb (role a) "assistant"
          && exchanges rest'
      end
  end.

(** What can happen to a session between two runs of the script: the
    script initialises the chain, a question is submitted, one of the two
    buttons is pressed, the key is typed in the Settings tab, or the files
    of the working directory change. *)
Inductive action : Type :=
| Ensure
| Submit (submitted : bool) (q : str)
| Rebuild
| Clear
| TypeKey (v : str)
| ChangeFiles (files : list dir_entry).

(** The text input of the Settings tab, lines 657-663: its value is the
    session key [OPENAI_API_KEY_OVERRIDE]. *)
Definition set_override (v : str) (s : Session) : Session :=
  mkSession (messages s) (conversation s) (rag_status s) (input_key s)
    (Some v).

(** The world after an action; what an action did before raising stays
    done. *)
Definition perform (a : action) (w : World) : World :=
  match a with
  | Ensure => snd (ensure_conversation w)
  | Submit submitted q => snd (chat_submit submitted q w)
  | Rebuild => snd (rebuild_knowledge_base w)
  | Clear => snd (clear_chat_history w)
  | TypeKey v => set_session (set_override v (session_state w)) w
  | ChangeFiles files => set_cwd files w
  end.

(** The world after a list of actions, first action first. *)
Definition perform_all (actions : list action) (w : World) : World :=
  fold_left (fun w a => perform a w) actions w.

End MoreVocabulary.

(** The first character is not white space. *)
Definition starts_nonspace (s : str) : Prop :=
  exists c s', s = c :: s' /\ isspace c = false.

(** The last character is not white space. *)
Definition ends_nonspace (s : str) : Prop :=
  exists s' c, s = s' ++ [c] /\ isspace c = false.

(** A text that is empty or begins and ends with a character that is not
    white space. *)
Definition trimmed (s : str) : Prop :=
  s = [] \/ (starts_nonspace s /\ ends_nonspace s).

(** [s <= t] in the order of [sorted]. *)
Definition str_le (s t : str) : Prop := Text.leb s t = true.

(** ** More worlds for concrete runs *)

Module Samples.

#[local] Existing Instance Demo.demo_library.

(** A file that [PdfReader] cannot open. *)
Definition broken_pdf : dir_entry :=
  mkEntry (of_string "broken.pdf") true
    (ReaderRaises (OtherError (of_string "EOF marker not found"))).

(** A file whose second page cannot be extracted. *)
Definition torn_pdf : dir_entry :=
  mkEntry (of_string "torn.pdf") true
    (ReaderPages [ExtractReturns (Some Demo.soil);
                  ExtractRaises (OtherError (of_string "bad stream"));
                  ExtractReturns (Some Demo.soil)]).

(** A directory, a text file and two PDFs, out of order. *)
Definition mixed_files : list dir_entry :=
  [mkEntry (of_string "notes.txt") true (ReaderRaises (OtherError []));
   mkEntry (of_string "b.PDF") true (ReaderPages []);
   mkEntry (of_string "archive.pdf") false (ReaderRaises (OtherError []));
   mkEntry (of_string "a.pdf") true (ReaderPages [])].

Definition mixed_world : World :=
  Demo.world_with mixed_files None (Some Demo.demo_key) init_session.

Definition broken_world : World :=
  Demo.world_with [broken_pdf; Demo.soil_pdf; torn_pdf] None
    (Some Demo.demo_key) init_session.

(** No key anywhere, one PDF and a saved index. *)
Definition keyless_world : World :=
  Demo.world_with [Demo.soil_pdf]
    (Some (mkStoreDir (Some [mkDocument Demo.soil (of_string "old.pdf") 1])
             None))
    None init_session.

(** A ready session whose directory has lost its PDFs. *)
Definition emptied_world : World :=
  Eval vm_compute in set_cwd [] Demo.ready_world.

(** A key typed with a space before and a line feed after, and no key in
    the environment. *)
Definition padded_key_world : World :=
  Demo.world_with [Demo.soil_pdf] None None
    (mkSession [] None "init" 0
       (Some (of_string " " ++ Demo.demo_key ++ [10%N]))).

Definition photo_names : list str :=
  [of_string "b.JPG"; of_string "readme.md"; of_string "a.png"].

(** [Demo.ready_world] with a new PDF next to the old one, where
    [shutil.rmtree] fails on every entry and leaves the directory as it
    is. *)
Definition stuck_world : World :=
  set_rmtree_leaves (fun d => Some d)
    (set_cwd [Demo.soil_pdf; mkEntry (of_string "new.pdf") true
                               (ReaderPages [ExtractReturns (Some Demo.soil)])]
       Demo.ready_world).

(** [emptied_world] where [shutil.rmtree] removes the index files and the
    metadata but not the directory. *)
Definition half_removed_world : World :=
  set_rmtree_leaves (fun _ => Some (mkStoreDir None None)) emptied_world.

End Samples.

(** ** Running the computations *)

Ltac run :=
  unfold bind, gets, emit, modify, ret, raise, lift, try_except,
    update_session; cbn.

Section Runs.

Context {L : Library}.

#[local] Arguments list_pdfs_in_cwd : simpl never.
#[local] Arguments load_docs_from_files : simpl never.
#[local] Arguments _load_faiss : simpl never.
#[local] Arguments build_or_load_vectorstore : simpl never.
#[local] Arguments get_api_key : simpl never.
#[local] Arguments ensure_conversation : simpl never.
#[local] Arguments tidy_response : simpl never.
#[local] Arguments split_docs : simpl never.
#[local] Arguments docs_of : simpl never.
#[local] Arguments pdfs_of : simpl never.

Lemma read_pages_acc (pdf : str) (pages : list extraction) :
  forall (i : nat) (docs : list Document),
    read_pages pdf i pages docs =
    (docs ++ pages_docs pdf i pages, snd (read_pages pdf i pages [])).
Proof.
  unfold pages_docs.
  induction pages as [|p pages IH]; intros i docs; cbn.
  - now rewrite app_nil_r.
  - destruct p as [e|t]; cbn.
    + now rewrite app_nil_r.
    + destruct (truthy (strip (extract_text_or_empty t))).
      * rewrite (IH (S i) (docs ++ _)), (IH (S i) [_]).
        cbn. now rewrite <- app_assoc.
      * apply IH.
Qed.

Lemma read_pdf_run (pdf : str) (docs : list Document) (w : World) :
  exists evs,
    read_pdf pdf docs w =
    (Ok (docs ++ file_docs w pdf), set_trace (evs ++ trace w) w) /\
    forallb extraction_event evs = true.
Proof.
  unfold read_pdf, file_docs. run.
  destruct (PdfReader w pdf) as [e|pages].
  - exists [Warning (could_not_read pdf e); OpenPdf pdf]. run.
    now rewrite app_nil_r.
  - rewrite read_pages_acc.
    destruct (snd (read_pages pdf 0 pages [])) as [e|].
    + exists [Warning (could_not_read pdf e); OpenPdf pdf]. now run.
    + exists [OpenPdf pdf]. now run.
Qed.

Lemma load_docs_loop_run (pdf_files : list str) :
  forall (docs : list Document) (w : World),
  exists evs,
    load_docs_loop pdf_files docs w =
    (Ok (docs ++ docs_of w pdf_files), set_trace (evs ++ trace w) w) /\
    forallb extraction_event evs = true.
Proof.
  induction pdf_files as [|pdf rest IH]; intros docs w.
  - exists []. cbn. rewrite app_nil_r. split; [|reflexivity].
    unfold ret. destruct w; reflexivity.
  - cbn [load_docs_loop]. unfold bind at 1.
    destruct (read_pdf_run pdf docs w) as (e1 & -> & H1).
    destruct (IH (docs ++ file_docs w pdf) (set_trace (e1 ++ trace w) w))
      as (e2 & -> & H2).
    exists (e2 ++ e1). split.
    + cbn. rewrite <- !app_assoc. reflexivity.
    + rewrite forallb_app, H1, H2. reflexivity.
Qed.

Lemma load_docs_from_files_run (pdf_files : list str) (w : World) :
  exists evs,
    load_docs_from_files pdf_files w =
    (Ok (docs_of w pdf_files), set_trace (evs ++ trace w) w) /\
    forallb extraction_event evs = true.
Proof. apply (load_docs_loop_run pdf_files [] w). Qed.

Lemma _load_faiss_run (api_key : str) (w : World) :
  exists evs,
    _load_faiss api_key w =
    (load_outcome (option_map index_files (vectorstore w)) api_key,
     set_trace (evs ++ trace w) w) /\
    forallb is_LoadLocal evs = true.
Proof.
  unfold _load_faiss, load_local, load_outcome. run.
  destruct (FAISS_load_local _ api_key true) as [vs|e].
  - exists [LoadLocal true]. now run.
  - destruct (is_TypeError e).
    + exists [LoadLocal false; LoadLocal true]. now run.
    + exists [LoadLocal true]. now run.
Qed.


Lemma list_pdfs_in_cwd_run (w : World) :
  list_pdfs_in_cwd w = (Ok (pdfs_of w), set_trace (ListDir :: trace w) w).
Proof. reflexivity. Qed.

Lemma build_or_load_vectorstore_run (api_key : str) (w : World) :
  exists evs,
    build_or_load_vectorstore api_key w =
    (index_outcome api_key w,
     set_trace (evs ++ trace w)
       (set_vectorstore (index_store api_key w) w)) /\
    (isdir_vectorstore w = true -> forallb is_LoadLocal evs = true).
Proof.
  unfold build_or_load_vectorstore, index_store, index_outcome,
    isdir_vectorstore.
  unfold bind at 1. unfold gets at 1. cbn.
  destruct (vectorstore w) as [d|] eqn:Hv; cbn.
  - unfold bind. destruct (_load_faiss_run api_key w) as (evs & -> & Hevs).
    rewrite Hv. cbn. exists evs. split; [|auto].
    rewrite <- Hv.
    destruct (load_outcome _ api_key); unfold ret;
      (destruct w; reflexivity).
  - unfold bind at 1. rewrite list_pdfs_in_cwd_run.
    change (pdfs_of (set_trace (ListDir :: trace w) w)) with (pdfs_of w).
    destruct (pdfs_of w) as [|pdf pdfs] eqn:Hp.
    + exists [ListDir]. split; [|discriminate].
      unfold ret. cbn. rewrite <- Hv. destruct w; reflexivity.
    + unfold bind at 1.
      destruct (load_docs_from_files_run (pdf :: pdfs)
                  (set_trace (ListDir :: trace w) w)) as (e1 & -> & _).
      change (docs_of (set_trace (ListDir :: trace w) w) (pdf :: pdfs))
        with (docs_of w (pdf :: pdfs)).
      destruct (docs_of w (pdf :: pdfs)) as [|d docs].
      * exists (e1 ++ [ListDir]). split; [|discriminate].
        unfold ret. cbn. rewrite <- app_assoc, <- Hv.
        destruct w; reflexivity.
      * generalize (split_docs (d :: docs)). intros chunks.
        unfold persist, makedirs_vectorstore, isdir_vectorstore. run.
        rewrite Hv.
        destruct (FAISS_from_documents chunks api_key) as [vs|e]; run;
          [destruct (vectorstore_is_file w) eqn:Hf; run|].
        -- exists (FromDocuments chunks :: e1 ++ [ListDir]).
           split; [|discriminate].
           cbn. rewrite <- app_assoc, <- Hv. destruct w; cbn in *; now subst.
        -- exists (WriteMetadata (mkMetadata (now w) (pdf :: pdfs))
                     :: SaveLocal :: FromDocuments chunks
                     :: e1 ++ [ListDir]).
           split; [|discriminate].
           cbn. rewrite <- app_assoc. reflexivity.
        -- exists (FromDocuments chunks :: e1 ++ [ListDir]).
           split; [|discriminate].
           cbn. rewrite <- app_assoc, <- Hv. destruct w; reflexivity.
Qed.

Lemma get_api_key_run (w : World) :
  get_api_key w =
  (Ok (api_key_of w),
   set_trace
     ((if truthy (get_or_empty (OPENAI_API_KEY_OVERRIDE (session_state w)))
       then [] else [Getenv]) ++ trace w) w).
Proof.
  unfold get_api_key, api_key_of, py_or. run.
  destruct (truthy (get_or_empty _)); run; [|reflexivity].
  destruct w; reflexivity.
Qed.


Lemma index_store_unchanged (api_key : str) (w : World) :
  (forall vs, index_outcome api_key w <> Ok (Some vs)) ->
  index_store api_key w = vectorstore w.
Proof.
  unfold index_store. intros H.
  destruct (vectorstore w); [reflexivity|].
  destruct (index_outcome api_key w) as [[vs|]|e]; try reflexivity.
  now destruct (H vs).
Qed.

Lemma ensure_conversation_run (w : World) :
  exists evs,
    ensure_conversation w =
    (fst (fst (ensure_outcome w)),
     mkWorld (cwd w) (snd (ensure_outcome w)) (OPENAI_API_KEY w) (now w)
       (snd (fst (ensure_outcome w))) (evs ++ trace w)
       (vectorstore_is_file w) (rmtree_leaves w)).
Proof.
  unfold ensure_conversation, ensure_outcome.
  unfold bind at 1. unfold gets at 1.
  destruct (conversation (session_state w)) as [c|] eqn:Hc.
  - exists []. cbn. unfold ret. destruct w; reflexivity.
  - unfold bind at 1. rewrite get_api_key_run.
    set (e0 := if truthy _ then [] else [Getenv]).
    destruct (truthy (api_key_of w)) eqn:Hk; cbn.
    + unfold bind at 1.
      destruct (build_or_load_vectorstore_run (api_key_of w)
                  (set_trace (e0 ++ trace w) w)) as (e1 & -> & _).
      change (index_outcome (api_key_of w) (set_trace (e0 ++ trace w) w))
        with (index_outcome (api_key_of w) w).
      change (index_store (api_key_of w) (set_trace (e0 ++ trace w) w))
        with (index_store (api_key_of w) w).
      exists (e1 ++ e0).
      destruct (index_outcome (api_key_of w) w) as [[vs|]|e] eqn:Ho; run;
        rewrite <- ?app_assoc; try reflexivity;
        (rewrite index_store_unchanged; [reflexivity|]);
        intros vs; rewrite Ho; discriminate.
    + exists e0. run. reflexivity.
Qed.

Lemma ensure_outcome_fixed (w : World) (t : list event) :
  ensure_outcome
    (mkWorld (cwd w) (snd (ensure_outcome w)) (OPENAI_API_KEY w) (now w)
       (snd (fst (ensure_outcome w))) t
       (vectorstore_is_file w) (rmtree_leaves w)) =
  ensure_outcome w.
Proof.
  destruct (ensure_outcome w) as [[r s] v] eqn:E. cbn [fst snd].
  revert E. unfold ensure_outcome.
  destruct (conversation (session_state w)) as [c|] eqn:Hc.
  - intros [= <- <- <-]. cbn. rewrite Hc. reflexivity.
  - destruct (truthy (api_key_of w)) eqn:Hk; cbn [negb].
    + destruct (index_outcome (api_key_of w) w) as [[vs|]|e] eqn:Ho;
        intros [= <- <- <-]; cbn; [reflexivity| |].
      * rewrite Hc.
        change (api_key_of (mkWorld _ _ _ _ _ _ _ _)) with (api_key_of w).
        rewrite Hk. cbn [negb].
        change (index_outcome _ (mkWorld _ _ _ _ _ _ _ _))
          with (index_outcome (api_key_of w) w).
        rewrite Ho. reflexivity.
      * rewrite Hc.
        change (api_key_of (mkWorld _ _ _ _ _ _ _ _)) with (api_key_of w).
        rewrite Hk. cbn [negb].
        change (index_outcome _ (mkWorld _ _ _ _ _ _ _ _))
          with (index_outcome (api_key_of w) w).
        rewrite Ho. reflexivity.
    + intros [= <- <- <-]. cbn. rewrite Hc.
      change (api_key_of (mkWorld _ _ _ _ _ _ _ _)) with (api_key_of w).
      rewrite Hk. reflexivity.
Qed.

End Runs.

(** ** The chat submit handler *)

Section Chat.

Context {L : Library}.

#[local] Arguments tidy_response : simpl never.

Lemma tidy_response_guidance (status : string) :
  tidy_response (guidance status) = guidance status.
Proof.
  unfold guidance.
  destruct (String.eqb status "missing_key");
    [|destruct (String.eqb status "no_pdfs")];
    vm_compute; reflexivity.
Qed.

Lemma guidance_messages_distinct :
  missing_key_message <> no_pdfs_message /\
  missing_key_message <> not_ready_message /\
  no_pdfs_message <> not_ready_message.
Proof. repeat split; vm_compute; discriminate. Qed.

Lemma chat_submit_blank (submitted : bool) (q : str) (w : World) :
  submitted && truthy (strip q) = false ->
  chat_submit submitted q w = (Ok false, w).
Proof. intros H. unfold chat_submit. rewrite H. reflexivity. Qed.

Lemma chat_submit_no_chain (q : str) (w : World) :
  truthy (strip q) = true ->
  conversation (session_state w) = None ->
  chat_submit true q w =
  (Ok true,
   set_session
     (set_messages
        (messages (session_state w) ++
         [mkMessage "user" q;
          mkMessage "assistant" (guidance (rag_status (session_state w)))])
        (session_state w)) w).
Proof.
  intros Hq Hc. unfold chat_submit, append_message. rewrite Hq. run.
  rewrite Hc. run. rewrite tidy_response_guidance, <- app_assoc.
  reflexivity.
Qed.

Lemma chat_submit_chain (q : str) (w : World) (c : Chain) :
  truthy (strip q) = true ->
  conversation (session_state w) = Some c ->
  chat_submit true q w =
  (Ok true,
   set_trace (Ask q :: trace w)
     (set_session
        (set_conversation (Some (fst (invoke c q)))
           (set_messages
              (messages (session_state w) ++
               [mkMessage "user" q;
                mkMessage "assistant"
                  (tidy_response (answer_of (snd (invoke c q))))])
              (session_state w))) w)).
Proof.
  intros Hq Hc. unfold chat_submit, append_message, call_chain.
  rewrite Hq. run. rewrite Hc.
  destruct (invoke c q) as [c' [a|e]]; run; rewrite <- app_assoc;
    reflexivity.
Qed.

End Chat.

(** ** The Text Extractor *)

Section Extraction.

Context {L : Library}.

Lemma pages_docs_cons_returns (pdf : str) (i : nat) (t : option str)
  (rest : list extraction) :
  pages_docs pdf i (ExtractReturns t :: rest) =
  (if nonblank (extract_text_or_empty t)
   then [page_document pdf (i, extract_text_or_empty t)]
   else []) ++ pages_docs pdf (S i) rest.
Proof.
  unfold pages_docs at 1. cbn [read_pages].
  rewrite read_pages_acc. cbn [fst]. unfold nonblank, page_document.
  destruct (truthy (strip (extract_text_or_empty t))); reflexivity.
Qed.

Lemma pages_docs_enumerate (pdf : str) (pages : list extraction) :
  forall i,
    pages_docs pdf i pages =
    map (page_document pdf)
      (filter (fun it => nonblank (snd it))
         (enumerate_from i (extracted_texts pages))).
Proof.
  induction pages as [|[e|t] rest IH]; intros i; try reflexivity.
  rewrite pages_docs_cons_returns, IH. unfold enumerate_from. cbn.
  destruct (nonblank (extract_text_or_empty t)); reflexivity.
Qed.

Lemma pages_docs_nil (pdf : str) (pages : list extraction) :
  forall i,
    pages_docs pdf i pages = [] <->
    (forall t, In t (extracted_texts pages) -> nonblank t = false).
Proof.
  induction pages as [|[e|t] rest IH]; intros i.
  - split; [intros _ t []|reflexivity].
  - split; [intros _ t []|reflexivity].
  - rewrite pages_docs_cons_returns. cbn [extracted_texts]. split.
    + intros H t' [<-|Hin].
      * destruct (nonblank (extract_text_or_empty t)); [discriminate|easy].
      * apply app_eq_nil in H. apply (proj1 (IH (S i)) (proj2 H)), Hin.
    + intros H. rewrite (H _ (or_introl eq_refl)). cbn.
      apply IH. intros t' Hin. apply H. now right.
Qed.

Lemma file_docs_nil (w : World) (pdf : str) :
  file_docs w pdf = [] <->
  (forall t, In t (page_texts w pdf) -> nonblank t = false).
Proof.
  unfold file_docs, page_texts.
  destruct (PdfReader w pdf) as [e|pages].
  - split; [intros _ t []|reflexivity].
  - apply pages_docs_nil.
Qed.

Lemma docs_of_nil (w : World) (pdf_files : list str) :
  docs_of w pdf_files = [] <->
  (forall pdf t,
     In pdf pdf_files -> In t (page_texts w pdf) -> nonblank t = false).
Proof.
  unfold docs_of. induction pdf_files as [|pdf rest IH]; cbn.
  - split; [intros _ ? ? []|reflexivity].
  - split.
    + intros H pdf' t [<-|Hin] Ht; apply app_eq_nil in H.
      * apply (proj1 (file_docs_nil w pdf) (proj1 H)), Ht.
      * apply (proj1 IH (proj2 H) pdf' t Hin Ht).
    + intros H.
      rewrite (proj2 (file_docs_nil w pdf)), (proj2 IH).
      * reflexivity.
      * intros pdf' t Hin Ht. apply (H pdf' t); auto.
      * intros t Ht. apply (H pdf t); auto.
Qed.

Lemma docs_of_pdfs_nil (w : World) :
  docs_of w (pdfs_of w) = [] <-> no_extractable_text w.
Proof. apply docs_of_nil. Qed.

Lemma split_documents_metadata (size overlap : nat) (docs : list Document)
  (c : Document) :
  In c (split_documents size overlap docs) ->
  exists d,
    In d docs /\ source c = source d /\ page c = page d /\
    In (page_content c) (split_text size overlap (page_content d)).
Proof.
  unfold split_documents. rewrite in_flat_map.
  intros (d & Hd & Hc). rewrite in_map_iff in Hc.
  destruct Hc as (t & <- & Ht). exists d. cbn. auto.
Qed.

End Extraction.

Lemma py_or_empty (s : str) : py_or s [] = s.
Proof. now destruct s. Qed.

Lemma in_enumerate_from (texts : list str) :
  forall i k t,
    In (k, t) (enumerate_from i texts) <->
    i <= k /\ nth_error texts (k - i) = Some t.
Proof.
  unfold enumerate_from.
  induction texts as [|t0 texts IH]; intros i k t; cbn.
  - split; [intros []|]. intros [_ H]. now destruct (k - i).
  - rewrite IH. split.
    + intros [[= <- <-]|[Hle Hn]].
      * split; [lia|]. now rewrite Nat.sub_diag.
      * split; [lia|]. replace (k - i) with (S (k - S i)) by lia. exact Hn.
    + intros [Hle Hn]. destruct (k - i) as [|m] eqn:Hm.
      * left. injection Hn as <-. f_equal. lia.
      * right. split; [lia|]. replace (k - S i) with m by lia. exact Hn.
Qed.

Section IndexBuilder.

Context {L : Library}.

Lemma index_outcome_none (api_key : str) (w : World) :
  vectorstore w = None ->
  (index_outcome api_key w = Ok None <->
   pdfs_of w = [] \/ no_extractable_text w).
Proof.
  intros Hv. unfold index_outcome. rewrite Hv.
  rewrite <- docs_of_pdfs_nil.
  destruct (pdfs_of w) as [|pdf pdfs]; [tauto|].
  destruct (docs_of w (pdf :: pdfs)) as [|d docs]; [tauto|].
  destruct (FAISS_from_documents _ api_key);
    [destruct (vectorstore_is_file w)|]; split;
    try discriminate; intros [H|H]; discriminate.
Qed.


(** C5. A load that fails is not the no-documents outcome. When
    [FAISS.load_local] fails on the storage path (missing or unreadable)
    under both calling conventions, [_load_faiss] raises one of its
    exceptions; with the directory present, [build_or_load_vectorstore]
    raises what [_load_faiss] raises, and so does [ensure_conversation],
    which leaves the session as it was (the status does not become
    [no_pdfs]); and [None] is returned only when there is no index
    directory and the listing has no PDF or no page yields text. *)
Theorem failed_load_is_not_no_documents (api_key : str) (w : World) :
  ((forall allow, exists e,
      FAISS_load_local (option_map index_files (vectorstore w)) api_key allow
      = Raise e) ->
   exists e allow,
     FAISS_load_local (option_map index_files (vectorstore w)) api_key allow
     = Raise e /\
     fst (_load_faiss api_key w) = Raise e) /\
  (forall e,
     isdir_vectorstore w = true ->
     fst (_load_faiss api_key w) = Raise e ->
     fst (build_or_load_vectorstore api_key w) = Raise e) /\
  (forall e,
     isdir_vectorstore w = true ->
     conversation (session_state w) = None ->
     truthy (api_key_of w) = true ->
     fst (_load_faiss (api_key_of w) w) = Raise e ->
     fst (ensure_conversation w) = Raise e /\
     session_state (snd (ensure_conversation w)) = session_state w) /\
  (fst (build_or_load_vectorstore api_key w) = Ok None ->
   vectorstore w = None /\ (pdfs_of w = [] \/ no_extractable_text w)).
Proof.
  assert (Hnone : fst (build_or_load_vectorstore api_key w) = Ok None ->
          vectorstore w = None /\ (pdfs_of w = [] \/ no_extractable_text w)).
  { destruct (build_or_load_vectorstore_run api_key w) as (evs & -> & _).
    cbn [fst]. intros H. destruct (vectorstore w) as [d|] eqn:Hv.
    - unfold index_outcome in H. rewrite Hv in H.
      destruct (load_outcome _ api_key); discriminate.
    - split; [reflexivity|]. now apply (index_outcome_none api_key w Hv). }
  assert (Hraise : forall key e,
            isdir_vectorstore w = true ->
            fst (_load_faiss key w) = Raise e ->
            index_outcome key w = Raise e).
  { intros key e Hdir.
    destruct (_load_faiss_run key w) as (evs & -> & _). cbn [fst].
    unfold isdir_vectorstore in Hdir. unfold index_outcome.
    destruct (vectorstore w) as [d|]; [|discriminate].
    cbn. now intros ->. }
  split; [|split; [|split; [|exact Hnone]]].
  - intros H.
    destruct (_load_faiss_run api_key w) as (evs & -> & _). cbn [fst].
    unfold load_outcome.
    destruct (H true) as (e & He). rewrite He.
    destruct (is_TypeError e).
    + destruct (H false) as (e' & He'). exists e', false. now rewrite He'.
    + exists e, true. now rewrite He.
  - intros e Hdir Hload.
    destruct (build_or_load_vectorstore_run api_key w) as (evs & -> & _).
    cbn [fst]. now apply Hraise.
  - intros e Hdir Hc Hk Hload.
    destruct (ensure_conversation_run w) as (evs & ->). cbn [fst snd].
    unfold ensure_outcome.
    rewrite Hc, Hk, (Hraise (api_key_of w) e Hdir Hload). cbn. auto.
Qed.

End IndexBuilder.

Section TextExtractor.

Context {L : Library}.

(** C7. For every list of PDF files, [load_docs_from_files] returns the
    Documents of the files in order, and the Documents of one file are its
    pages with text that is not white space, in page order, each with the
    file name as source and its position in the file, counted from 1, as
    page: a page whose text is empty or white space gives no Document, and
    keeps its number. A PDF with the pages [first; ""] gives the single
    Document of page 1, and every chunk made of it carries page 1. *)
Theorem load_docs_from_files_skips_blank_pages (w : World)
  (pdf_files : list str) :
  (exists evs,
     load_docs_from_files pdf_files w =
     (Ok (flat_map (file_docs w) pdf_files), set_trace (evs ++ trace w) w)) /\
  (forall pdf,
     file_docs w pdf =
     map (page_document pdf)
       (filter (fun it => nonblank (snd it))
          (enumerate_from 0 (page_texts w pdf)))) /\
  (forall pdf k t,
     nth_error (page_texts w pdf) k = Some t -> nonblank t = false ->
     forall d, In d (file_docs w pdf) -> page d <> k + 1) /\
  (forall pdf d,
     In d (file_docs w pdf) ->
     nth_error (page_texts w pdf) (page d - 1) = Some (page_content d) /\
     1 <= page d /\ nonblank (page_content d) = true /\
     source d = basename pdf) /\
  (forall pdf first,
     nonblank first = true ->
     PdfReader w pdf =
       ReaderPages [ExtractReturns (Some first); ExtractReturns (Some [])] ->
     file_docs w pdf = [mkDocument first (basename pdf) 1] /\
     forall c, In c (split_docs (file_docs w pdf)) ->
               page c = 1 /\ source c = basename pdf).
Proof.
  assert (Henum : forall pdf,
     file_docs w pdf =
     map (page_document pdf)
       (filter (fun it => nonblank (snd it))
          (enumerate_from 0 (page_texts w pdf)))).
  { intros pdf. unfold file_docs, page_texts.
    destruct (PdfReader w pdf) as [e|pages]; [reflexivity|].
    apply pages_docs_enumerate. }
  assert (Hin : forall pdf d,
     In d (file_docs w pdf) ->
     nth_error (page_texts w pdf) (page d - 1) = Some (page_content d) /\
     1 <= page d /\ nonblank (page_content d) = true /\
     source d = basename pdf).
  { intros pdf d. rewrite Henum, in_map_iff.
    intros ([k t] & <- & Hf). apply filter_In in Hf. destruct Hf as [Hk Hn].
    apply in_enumerate_from in Hk. destruct Hk as [_ Hk].
    cbn in *. rewrite Nat.sub_0_r in Hk.
    replace (k + 1 - 1) with k by lia. repeat split; auto; lia. }
  split; [|split; [exact Henum|split; [|split; [exact Hin|]]]].
  - destruct (load_docs_from_files_run pdf_files w) as (evs & H & _).
    exists evs. exact H.
  - intros pdf k t Hk Hblank d Hd Hpage.
    destruct (Hin pdf d Hd) as (Hn & _ & Hnb & _).
    rewrite Hpage in Hn. replace (k + 1 - 1) with k in Hn by lia.
    congruence.
  - intros pdf first Hfirst Hread.
    assert (Hdocs : file_docs w pdf = [mkDocument first (basename pdf) 1]).
    { unfold file_docs. rewrite Hread.
      rewrite 2 pages_docs_cons_returns. cbn [extract_text_or_empty].
      rewrite !py_or_empty, Hfirst. reflexivity. }
    split; [exact Hdocs|]. intros c Hc. rewrite Hdocs in Hc.
    apply split_documents_metadata in Hc.
    destruct Hc as (d & [<-|[]] & Hs & Hp & _). auto.
Qed.

End TextExtractor.

Lemma lstrip_spaces (s : str) : forallb isspace s = true -> lstrip s = [].
Proof.
  induction s as [|c s IH]; cbn; [reflexivity|].
  intros H. apply andb_prop in H. destruct H as [-> H]. auto.
Qed.

Lemma strip_spaces (s : str) : forallb isspace s = true -> strip s = [].
Proof.
  intros H. unfold strip, rstrip. now rewrite (lstrip_spaces s H).
Qed.

Section Conversation.

Context {L : Library}.

#[local] Arguments tidy_response : simpl never.


(** C10. Submitting an empty or white-space question does nothing: the
    handler returns without reaching [st.rerun()] and the world (message
    log, session, files, trace of calls) is the one it started in. *)
Theorem chat_submit_blank_question_is_noop (submitted : bool) (q : str)
  (w : World) :
  forallb isspace q = true ->
  chat_submit submitted q w = (Ok false, w).
Proof.
  intros H. apply chat_submit_blank.
  rewrite (strip_spaces q H). apply andb_false_r.
Qed.

(** C9. [get_api_key] reads the environment variable only when the
    override of the session is the empty string. When the override is not
    empty and made of white space only, the key is the empty string
    whatever the environment holds, the environment is not read, and
    [ensure_conversation], in a session without a chain, sets the status to
    [missing_key] and does nothing else. *)
Theorem whitespace_override_hides_environment_key (w : World) (o : str) :
  OPENAI_API_KEY_OVERRIDE (session_state w) = Some o ->
  o <> [] ->
  forallb isspace o = true ->
  get_api_key w = (Ok [], w) /\
  (conversation (session_state w) = None ->
   ensure_conversation w =
   (Ok tt,
    set_session (set_rag_status "missing_key" (session_state w)) w)) /\
  (forall w0,
     let override :=
       get_or_empty (OPENAI_API_KEY_OVERRIDE (session_state w0)) in
     get_api_key w0 =
     (Ok (strip (if truthy override then override
                 else get_or_empty (OPENAI_API_KEY w0))),
      if truthy override then w0
      else set_trace (Getenv :: trace w0) w0)).
Proof.
  intros Ho Hne Hsp.
  assert (Hgen : forall w0,
     get_api_key w0 =
     (Ok (strip (if truthy (get_or_empty
                              (OPENAI_API_KEY_OVERRIDE (session_state w0)))
                 then get_or_empty
                        (OPENAI_API_KEY_OVERRIDE (session_state w0))
                 else get_or_empty (OPENAI_API_KEY w0))),
      if truthy (get_or_empty (OPENAI_API_KEY_OVERRIDE (session_state w0)))
      then w0 else set_trace (Getenv :: trace w0) w0)).
  { intros w0. rewrite get_api_key_run. unfold api_key_of, py_or.
    destruct (truthy _); [|reflexivity]. destruct w0; reflexivity. }
  assert (Hkey : get_api_key w = (Ok [], w)).
  { rewrite Hgen, Ho. cbn [get_or_empty].
    destruct o as [|ch o]; [easy|]. cbn [truthy].
    now rewrite (strip_spaces _ Hsp). }
  split; [exact Hkey|split; [|exact Hgen]].
  intros Hc. unfold ensure_conversation.
  unfold bind at 1. unfold gets at 1. rewrite Hc.
  unfold bind at 1. rewrite Hkey. reflexivity.
Qed.

End Conversation.

Section SessionState.

Context {L : Library}.

#[local] Arguments build_or_load_vectorstore : simpl never.
#[local] Arguments get_api_key : simpl never.
#[local] Arguments ensure_conversation : simpl never.
#[local] Arguments tidy_response : simpl never.

Lemma build_or_load_vectorstore_value (api_key : str) (w : World) :
  fst (build_or_load_vectorstore api_key w) = index_outcome api_key w.
Proof.
  destruct (build_or_load_vectorstore_run api_key w) as (evs & -> & _).
  reflexivity.
Qed.

Lemma ensure_conversation_with_chain (w : World) (c : Chain) :
  conversation (session_state w) = Some c ->
  ensure_conversation w = (Ok tt, w).
Proof.
  intros Hc. unfold ensure_conversation, bind, gets. now rewrite Hc.
Qed.

Lemma ensure_conversation_times_with_chain (n : nat) (w : World) (c : Chain) :
  conversation (session_state w) = Some c ->
  ensure_conversation_times n w = (Ok tt, w).
Proof.
  intros Hc. induction n as [|n IH]; [reflexivity|].
  cbn [ensure_conversation_times]. unfold bind.
  now rewrite (ensure_conversation_with_chain w c Hc).
Qed.

Lemma ensure_conversation_twice (w : World) :
  exists evs,
    ensure_conversation (snd (ensure_conversation w)) =
    (fst (ensure_conversation w),
     set_trace (evs ++ trace (snd (ensure_conversation w)))
       (snd (ensure_conversation w))).
Proof.
  destruct (ensure_conversation_run w) as (e1 & ->). cbn [fst snd].
  match goal with
  | |- context [ensure_conversation ?w1] =>
      destruct (ensure_conversation_run w1) as (e2 & ->)
  end.
  cbn [cwd OPENAI_API_KEY now trace].
  rewrite ensure_outcome_fixed. exists e2. reflexivity.
Qed.

Lemma ensure_conversation_keeps_invariant (w : World) :
  ready_has_chain (session_state w) ->
  ready_has_chain (session_state (snd (ensure_conversation w))).
Proof.
  destruct (ensure_conversation_run w) as (evs & ->). cbn.
  unfold ensure_outcome, ready_has_chain.
  destruct (conversation (session_state w)) as [c|] eqn:Hc; cbn.
  - now rewrite Hc.
  - destruct (truthy (api_key_of w)); cbn; [|discriminate].
    destruct (index_outcome _ w) as [[vs|]|e]; cbn;
      try discriminate; auto.
Qed.

Lemma ensure_conversation_becomes_ready (w : World) (vs : FAISS) :
  conversation (session_state w) = None ->
  truthy (api_key_of w) = true ->
  fst (build_or_load_vectorstore (api_key_of w) w) = Ok (Some vs) ->
  fst (ensure_conversation w) = Ok tt /\
  session_state (snd (ensure_conversation w)) =
  set_rag_status "ready"
    (set_conversation (Some (make_chain vs (api_key_of w)))
       (session_state w)).
Proof.
  intros Hc Hk Hb. rewrite build_or_load_vectorstore_value in Hb.
  destruct (ensure_conversation_run w) as (evs & ->). cbn.
  unfold ensure_outcome. rewrite Hc, Hk, Hb. cbn. auto.
Qed.

Lemma rebuild_knowledge_base_replaces (w : World) (vs : FAISS) :
  truthy (api_key_of w) = true ->
  fst (build_or_load_vectorstore (api_key_of w) (after_rmtree w))
  = Ok (Some vs) ->
  exists w',
    rebuild_knowledge_base w = (Ok tt, w') /\
    session_state w' =
    set_rag_status "ready"
      (set_conversation (Some (make_chain vs (api_key_of w)))
         (session_state w)).
Proof.
  intros Hk Hb. rewrite build_or_load_vectorstore_value in Hb.
  unfold rebuild_knowledge_base. unfold bind at 1.
  rewrite get_api_key_run. rewrite Hk. cbn [negb].
  set (e0 := if truthy _ then [] else [Getenv]).
  unfold bind at 1. unfold gets at 1.
  unfold isdir_vectorstore. cbn [vectorstore set_trace].
  destruct (vectorstore w) as [d|] eqn:Hv.
  - unfold bind at 1. unfold rmtree_vectorstore.
    unfold bind at 1. unfold emit at 1. unfold modify at 1.
    unfold modify at 1. unfold bind at 1.
    match goal with
    | |- context [build_or_load_vectorstore ?k ?w1] =>
        destruct (build_or_load_vectorstore_run k w1) as (e1 & -> & _);
        replace (index_outcome k w1)
          with (index_outcome k (after_rmtree w))
          by (unfold index_outcome, after_rmtree; cbn; now rewrite Hv)
    end.
    rewrite Hb. run. eexists. split; reflexivity.
  - unfold bind at 1. unfold ret at 1. unfold bind at 1.
    match goal with
    | |- context [build_or_load_vectorstore ?k ?w1] =>
        destruct (build_or_load_vectorstore_run k w1) as (e1 & -> & _);
        replace (index_outcome k w1)
          with (index_outcome k (after_rmtree w))
          by (unfold index_outcome, after_rmtree; cbn; now rewrite Hv)
    end.
    rewrite Hb. run. eexists. split; reflexivity.
Qed.


Lemma index_outcome_build (api_key : str) (w : World) :
  vectorstore w = None ->
  pdfs_of w <> [] ->
  ~ no_extractable_text w ->
  index_outcome api_key w =
  match FAISS_from_documents (split_docs (docs_of w (pdfs_of w))) api_key with
  | Ok vs =>
      if vectorstore_is_file w then Raise file_exists_error else Ok (Some vs)
  | Raise e => Raise e
  end.
Proof.
  intros Hv Hp Hd. rewrite <- docs_of_pdfs_nil in Hd.
  unfold index_outcome. rewrite Hv.
  destruct (pdfs_of w) as [|pdf pdfs]; [easy|].
  destruct (docs_of w (pdf :: pdfs)); easy.
Qed.



End SessionState.

(** ** Further properties: text *)

Lemma text_eqb_eq (s t : str) : Text.eqb s t = true <-> s = t.
Proof.
  revert t. induction s as [|a s IH]; intros [|b t]; cbn; try easy.
  rewrite andb_true_iff, N.eqb_eq, IH. split.
  - now intros [-> ->].
  - now intros [= -> ->].
Qed.

Lemma text_leb_total (s t : str) : Text.leb s t = false -> Text.leb t s = true.
Proof.
  revert t. induction s as [|a s IH]; intros [|b t]; cbn; try easy.
  rewrite orb_false_iff, andb_false_iff, N.ltb_ge, N.eqb_neq.
  intros [Hlt [Hne|Hle]].
  - apply orb_true_iff. left. apply N.ltb_lt. lia.
  - destruct (N.eqb_spec b a) as [->|Hne].
    + rewrite (IH t Hle). apply orb_true_r.
    + apply orb_true_iff. left. apply N.ltb_lt. lia.
Qed.

Lemma text_leb_trans (s t u : str) :
  Text.leb s t = true -> Text.leb t u = true -> Text.leb s u = true.
Proof.
  revert t u. induction s as [|a s IH]; intros [|b t] [|c u]; cbn; try easy.
  rewrite !orb_true_iff, !andb_true_iff, !N.ltb_lt, !N.eqb_eq.
  intros [H1|[-> H1]] [H2|[-> H2]].
  - left. lia.
  - now left.
  - now left.
  - right. split; [reflexivity|]. now apply (IH t u).
Qed.

Lemma text_leb_refl (s : str) : Text.leb s s = true.
Proof.
  induction s as [|a s IH]; cbn; [reflexivity|].
  rewrite N.eqb_refl, IH. apply orb_true_r.
Qed.

Lemma text_leb_antisym (s t : str) :
  Text.leb s t = true -> Text.leb t s = true -> s = t.
Proof.
  revert t. induction s as [|a s IH]; intros [|b t]; cbn; try easy.
  rewrite !orb_true_iff, !andb_true_iff, !N.ltb_lt, !N.eqb_eq.
  intros [H1|[-> H1]] [H2|[H2 H3]]; try lia.
  f_equal. now apply IH.
Qed.

Lemma insert_sorted_perm (x : str) (l : list str) :
  Permutation (insert_sorted x l) (x :: l).
Proof.
  induction l as [|y l IH]; cbn; [reflexivity|].
  destruct (Text.leb x y); [reflexivity|].
  rewrite IH. apply perm_swap.
Qed.

Lemma sorted_perm (l : list str) : Permutation (Text.sorted l) l.
Proof.
  induction l as [|x l IH]; cbn; [reflexivity|].
  rewrite insert_sorted_perm. now constructor.
Qed.

Lemma insert_sorted_sorted (x : str) (l : list str) :
  StronglySorted str_le l -> StronglySorted str_le (insert_sorted x l).
Proof.
  induction 1 as [|y l Hs IH Hy]; cbn.
  - repeat constructor.
  - destruct (Text.leb x y) eqn:Hxy.
    + constructor; [now constructor|]. constructor; [exact Hxy|].
      eapply Forall_impl; [|exact Hy].
      intros z Hz. exact (text_leb_trans x y z Hxy Hz).
    + constructor; [exact IH|].
      apply (Permutation_Forall (x := x :: l)).
      * symmetry. apply insert_sorted_perm.
      * constructor; [exact (text_leb_total x y Hxy)|exact Hy].
Qed.

Lemma sorted_sorted (l : list str) : StronglySorted str_le (Text.sorted l).
Proof.
  induction l as [|x l IH]; cbn; [constructor|].
  now apply insert_sorted_sorted.
Qed.

Lemma sorted_unique (l1 l2 : list str) :
  StronglySorted str_le l1 -> StronglySorted str_le l2 ->
  Permutation l1 l2 -> l1 = l2.
Proof.
  intros H1. revert l2.
  induction H1 as [|a l1 Hs1 IH Ha]; intros l2 H2 Hperm.
  - now apply Permutation_nil in Hperm.
  - destruct H2 as [|b l2 Hs2 Hb].
    + apply Permutation_sym, Permutation_nil in Hperm. discriminate.
    + assert (Hab : a = b).
      { rewrite Forall_forall in Ha, Hb.
        assert (Hina : In a (b :: l2))
          by (apply (Permutation_in _ Hperm); now left).
        assert (Hinb : In b (a :: l1))
          by (apply (Permutation_in _ (Permutation_sym Hperm)); now left).
        destruct Hina as [->|Hina]; [reflexivity|].
        destruct Hinb as [->|Hinb]; [reflexivity|].
        apply text_leb_antisym; [now apply Ha|now apply Hb]. }
      subst b. f_equal. apply IH; [exact Hs2|].
      now apply Permutation_cons_inv in Hperm.
Qed.

Lemma filter_sorted (p : str -> bool) (l : list str) :
  StronglySorted str_le l -> StronglySorted str_le (filter p l).
Proof.
  induction 1 as [|y l Hs IH Hy]; cbn; [constructor|].
  destruct (p y); [|exact IH].
  constructor; [exact IH|].
  apply Forall_forall. intros z Hz. apply filter_In in Hz.
  rewrite Forall_forall in Hy. now apply Hy.
Qed.

Lemma lstrip_split (s : str) :
  exists sp, s = sp ++ lstrip s /\ forallb isspace sp = true.
Proof.
  induction s as [|c s (sp & IH & Hsp)]; cbn.
  - now exists [].
  - destruct (isspace c) eqn:Hc.
    + exists (c :: sp). cbn. rewrite Hc, Hsp. now rewrite IH at 1.
    + now exists [].
Qed.

Lemma lstrip_starts (s : str) : lstrip s = [] \/ starts_nonspace (lstrip s).
Proof.
  induction s as [|c s IH]; cbn; [now left|].
  destruct (isspace c) eqn:Hc; [exact IH|].
  right. now exists c, s.
Qed.

Lemma lstrip_fixed (s : str) : starts_nonspace s -> lstrip s = s.
Proof. intros (c & s' & -> & Hc). cbn. now rewrite Hc. Qed.

Lemma ends_nonspace_rev (s : str) : ends_nonspace s <-> starts_nonspace (rev s).
Proof.
  split.
  - intros (s' & c & -> & Hc). rewrite rev_app_distr. now exists c, (rev s').
  - intros (c & s' & H & Hc). exists (rev s'), c. split; [|exact Hc].
    rewrite <- (rev_involutive s), H. reflexivity.
Qed.

Lemma strip_trimmed (s : str) : trimmed (strip s).
Proof.
  unfold strip, rstrip.
  destruct (lstrip_starts s) as [->|(c & u & Hu & Hc)]; [now left|].
  rewrite Hu.
  destruct (lstrip_split (rev (c :: u))) as (sp & Hsplit & Hsp).
  destruct (lstrip_starts (rev (c :: u))) as [Hnil|Hst].
  - rewrite Hnil, app_nil_r in Hsplit.
    assert (Hin : In c sp) by (rewrite <- Hsplit, <- in_rev; now left).
    rewrite forallb_forall in Hsp. rewrite (Hsp c Hin) in Hc. discriminate.
  - right. split.
    + destruct Hst as (d & v & Hv & Hd).
      assert (Hrev : c :: u = rev (lstrip (rev (c :: u))) ++ rev sp).
      { rewrite <- rev_app_distr, <- Hsplit. now rewrite rev_involutive. }
      rewrite Hv in *. cbn in Hrev.
      destruct (rev v ++ [d]) as [|x xs] eqn:Hx.
      * now destruct (rev v).
      * cbn in Hrev. injection Hrev as <- _. now exists c, xs.
    + apply ends_nonspace_rev. now rewrite rev_involutive.
Qed.

Lemma trimmed_strip (s : str) : trimmed s -> strip s = s.
Proof.
  intros [->|[Hs He]]; [reflexivity|].
  unfold strip, rstrip. rewrite (lstrip_fixed s Hs).
  apply ends_nonspace_rev in He. rewrite (lstrip_fixed _ He).
  apply rev_involutive.
Qed.

Lemma strip_nil_iff (s : str) : strip s = [] <-> forallb isspace s = true.
Proof.
  split; [|apply strip_spaces].
  unfold strip, rstrip. intros H.
  destruct (lstrip_split s) as (sp & Hs & Hsp).
  destruct (lstrip_split (rev (lstrip s))) as (sp' & Hs' & Hsp').
  assert (Hnil : lstrip (rev (lstrip s)) = []).
  { rewrite <- (rev_involutive (lstrip _)), H. reflexivity. }
  rewrite Hnil, app_nil_r in Hs'.
  rewrite Hs, forallb_app, Hsp. cbn.
  rewrite <- (rev_involutive (lstrip s)), Hs'.
  rewrite forallb_forall in *. intros c Hc. apply Hsp'. now apply in_rev.
Qed.

Lemma in_lstrip (c : N) (s : str) : In c (lstrip s) -> In c s.
Proof.
  destruct (lstrip_split s) as (sp & Hs & _). intros H.
  rewrite Hs. apply in_or_app. now right.
Qed.

Lemma in_strip (c : N) (s : str) : In c (strip s) -> In c s.
Proof.
  unfold strip, rstrip. intros H.
  apply in_rev, in_lstrip, in_rev in H. now apply in_lstrip.
Qed.

Lemma startswith_in (s p : str) :
  startswith s p = true -> forall c, In c p -> In c s.
Proof.
  revert s. induction p as [|a p IH]; intros [|b s]; cbn; try easy.
  rewrite andb_true_iff, N.eqb_eq. intros [-> H] c [<-|Hc]; auto.
Qed.

Lemma replace_from_skipn (old new : str) (s : str) :
  forall skip,
    replace_from old new skip s = replace_from old new 0 (skipn skip s).
Proof.
  induction s as [|c s IH]; intros [|k]; try reflexivity.
  cbn [replace_from skipn]. apply IH.
Qed.

Lemma replace_absent (s old new : str) (c : N) :
  In c old -> ~ In c s -> Text.replace s old new = s.
Proof.
  intros Hold. unfold Text.replace.
  induction s as [|a s IH]; intros Hs; [reflexivity|].
  cbn [replace_from].
  destruct (startswith (a :: s) old) eqn:Hst.
  - destruct Hs. exact (startswith_in _ _ Hst c Hold).
  - f_equal. apply IH. intros Hc. apply Hs. now right.
Qed.

Lemma ends_nonspace_app (a b : str) :
  ends_nonspace b -> ends_nonspace (a ++ b).
Proof.
  intros (b' & c & -> & Hc). exists (a ++ b'), c.
  now rewrite app_assoc.
Qed.

Lemma ends_nonspace_suffix (a b : str) :
  ends_nonspace (a ++ b) -> b <> [] -> ends_nonspace b.
Proof.
  intros (s' & c & H & Hc) Hb.
  destruct (exists_last Hb) as (b' & d & ->).
  rewrite app_assoc in H. apply app_inj_tail in H. destruct H as [_ ->].
  now exists b', c.
Qed.

Lemma replace_ends_nonspace (old new : str) :
  ends_nonspace new ->
  forall n s,
    List.length s <= n -> ends_nonspace s ->
    ends_nonspace (replace_from old new 0 s).
Proof.
  intros Hnew. induction n as [|n IH]; intros [|c s] Hlen Hs.
  - destruct Hs as ([|? ?] & ? & ? & _); discriminate.
  - cbn in Hlen. lia.
  - destruct Hs as ([|? ?] & ? & ? & _); discriminate.
  - cbn in Hlen. cbn [replace_from].
    destruct (startswith (c :: s) old).
    + rewrite replace_from_skipn.
      set (k := List.length old - 1).
      destruct (skipn k s) as [|r0 r] eqn:Hr.
      * cbn. now rewrite app_nil_r.
      * apply ends_nonspace_app. apply IH.
        -- assert (H := length_skipn k s). rewrite Hr in H. cbn in *. lia.
        -- apply (ends_nonspace_suffix (c :: firstn k s)); [|discriminate].
           cbn. rewrite <- Hr, firstn_skipn. exact Hs.
    + destruct s as [|d s].
      * exact Hs.
      * apply (ends_nonspace_app [c]). apply IH; [lia|].
        apply (ends_nonspace_suffix [c]); [exact Hs|discriminate].
Qed.

Lemma replace_starts_nonspace (old new s : str) :
  starts_nonspace new \/ (exists o o', old = o :: o' /\ isspace o = true) ->
  starts_nonspace s ->
  starts_nonspace (replace_from old new 0 s).
Proof.
  intros Hcase (c & s' & -> & Hc). cbn [replace_from].
  destruct (startswith (c :: s') old) eqn:Hst.
  - destruct Hcase as [(d & new' & -> & Hd)|(o & o' & -> & Ho)].
    + now exists d, (new' ++ replace_from old (d :: new') (List.length old - 1) s').
    + cbn in Hst. apply andb_prop in Hst. destruct Hst as [Heq _].
      apply N.eqb_eq in Heq. subst. congruence.
  - now exists c, (replace_from old new 0 s').
Qed.

Lemma replace_trimmed (s old new : str) :
  ends_nonspace new ->
  starts_nonspace new \/ (exists o o', old = o :: o' /\ isspace o = true) ->
  trimmed s -> trimmed (Text.replace s old new).
Proof.
  intros Hend Hstart [->|[Hs He]]; [now left|]. right. split.
  - now apply replace_starts_nonspace.
  - exact (replace_ends_nonspace old new Hend (List.length s) s (le_n _) He).
Qed.

(** ** The reply to a failing chain *)

Lemma rag_error_text (e : exn) (m : str) :
  e = TypeError m \/ e = OtherError m ->
  rag_error e = of_string "(RAG error: " ++ m ++ of_string ")".
Proof. now intros [-> | ->]. Qed.

(** A text in parentheses whose inside has no asterisk and no line feed is
    left as it is by [tidy_response]. *)
Lemma tidy_response_rag_error_text (m : str) :
  ~ In 42%N m -> ~ In 10%N m ->
  tidy_response (of_string "(RAG error: " ++ m ++ of_string ")") =
  of_string "(RAG error: " ++ m ++ of_string ")".
Proof.
  intros Hstar Hnl.
  set (t := of_string "(RAG error: " ++ m ++ of_string ")").
  assert (Ht : trimmed t).
  { right. split.
    - eexists _, _. split; [reflexivity|reflexivity].
    - exists (of_string "(RAG error: " ++ m), 41%N. split; [|reflexivity].
      subst t. now rewrite <- app_assoc. }
  assert (Hin : forall c, In c t ->
            In c (of_string "(RAG error: ") \/ In c m \/ c = 41%N).
  { intros c H. subst t. apply in_app_or in H. destruct H as [H|H]; auto.
    apply in_app_or in H. destruct H as [H|[H|[]]]; auto. }
  assert (Hs : ~ In 42%N t).
  { intros H. destruct (Hin _ H) as [H'|[H'|H']];
      [cbn in H'; intuition discriminate|auto|discriminate]. }
  assert (Hn : ~ In 10%N t).
  { intros H. destruct (Hin _ H) as [H'|[H'|H']];
      [cbn in H'; intuition discriminate|auto|discriminate]. }
  unfold tidy_response.
  replace (truthy t) with true by reflexivity. cbn [negb].
  rewrite (trimmed_strip t Ht).
  rewrite (replace_absent _ (10%N :: of_string "-") _ 10%N);
    [|now left|exact Hn].
  rewrite (replace_absent _ (of_string "** ") _ 42%N); [|now left|exact Hs].
  rewrite (replace_absent _ (of_string " **") _ 42%N);
    [reflexivity|right; now left|exact Hs].
Qed.

Section ChainFailure.

Context {L : Library}.

#[local] Arguments tidy_response : simpl never.

(** C4. In a session with a chain, when the call of the chain for a
    question raises [e], the handler returns normally: the log gains the
    question and then, as the answer, [tidy_response] of the text made of
    ["(RAG error: "], the text of the exception and [")"]; when the text of
    the exception has no asterisk and no line feed, the answer is that text
    itself, so it names the exception. Status, input key and key override
    are as before, the session still holds the chain (as the failed call
    left it); files, environment and clock are untouched; and the next
    question is sent to that chain and answered the same way. *)
Theorem chat_submit_catches_chain_error (q : str) (w : World)
  (c c' : Chain) (e : exn) :
  conversation (session_state w) = Some c ->
  truthy (strip q) = true ->
  invoke c q = (c', Raise e) ->
  fst (chat_submit true q w) = Ok true /\
  messages (session_state (snd (chat_submit true q w))) =
    messages (session_state w) ++
    [mkMessage "user" q;
     mkMessage "assistant"
       (tidy_response
          (of_string "(RAG error: " ++ exn_str e ++ of_string ")"))] /\
  (forall m,
     e = TypeError m \/ e = OtherError m ->
     ~ In 42%N m -> ~ In 10%N m ->
     messages (session_state (snd (chat_submit true q w))) =
       messages (session_state w) ++
       [mkMessage "user" q;
        mkMessage "assistant"
          (of_string "(RAG error: " ++ m ++ of_string ")")]) /\
  rag_status (session_state (snd (chat_submit true q w))) =
    rag_status (session_state w) /\
  input_key (session_state (snd (chat_submit true q w))) =
    input_key (session_state w) /\
  OPENAI_API_KEY_OVERRIDE (session_state (snd (chat_submit true q w))) =
    OPENAI_API_KEY_OVERRIDE (session_state w) /\
  conversation (session_state (snd (chat_submit true q w))) = Some c' /\
  same_surroundings w (snd (chat_submit true q w)) /\
  trace (snd (chat_submit true q w)) = Ask q :: trace w /\
  forall q2,
    truthy (strip q2) = true ->
    fst (chat_submit true q2 (snd (chat_submit true q w))) = Ok true /\
    trace (snd (chat_submit true q2 (snd (chat_submit true q w)))) =
      Ask q2 :: Ask q :: trace w /\
    messages
      (session_state (snd (chat_submit true q2 (snd (chat_submit true q w)))))
    = messages (session_state (snd (chat_submit true q w))) ++
      [mkMessage "user" q2;
       mkMessage "assistant" (tidy_response (answer_of (snd (invoke c' q2))))].
Proof.
  intros Hc Hq Hi.
  rewrite (chat_submit_chain q w c Hq Hc), Hi. cbn.
  split; [reflexivity|]. split; [reflexivity|]. split.
  { intros m Hm Hstar Hnl.
    apply (eq_trans
             (y := messages (session_state w) ++
                   [mkMessage "user" q;
                    mkMessage "assistant" (tidy_response (rag_error e))]));
      [reflexivity|].
    rewrite (rag_error_text e m Hm).
    now rewrite (tidy_response_rag_error_text m Hstar Hnl). }
  repeat match goal with
         | |- _ /\ _ => split; [solve [unfold same_surroundings; auto]|]
         end.
  intros q2 Hq2.
  match goal with
  | |- context [chat_submit true q2 ?w1] =>
      rewrite (chat_submit_chain q2 w1 c' Hq2 eq_refl)
  end.
  repeat split; reflexivity.
Qed.

End ChainFailure.

(** ** Further properties: answers and listings *)

(** X1. The text [tidy_response] returns is empty or begins and ends with a
    character that is not white space, so stripping it again changes
    nothing; for an empty or white-space answer it is the empty text. *)
Theorem tidy_response_trimmed (text : str) :
  trimmed (tidy_response text) /\
  strip (tidy_response text) = tidy_response text /\
  (forallb isspace text = true -> tidy_response text = []).
Proof.
  assert (Htrim : trimmed (tidy_response text)).
  { unfold tidy_response. destruct (truthy text); cbn [negb]; [|now left].
    repeat apply replace_trimmed; try apply strip_trimmed.
    - exists [42%N], 42%N. now split.
    - left. exists 42%N, [42%N]. now split.
    - exists [42%N], 42%N. now split.
    - left. exists 42%N, [42%N]. now split.
    - exists [10%N; 10%N], 45%N. now split.
    - right. exists 10%N, [45%N]. now split. }
  split; [exact Htrim|split; [now apply trimmed_strip|]].
  intros Hblank. unfold tidy_response.
  destruct (truthy text); [|reflexivity].
  cbn [negb]. now rewrite (strip_spaces text Hblank).
Qed.

(** X2. An answer without an asterisk and without a line feed is only
    stripped by [tidy_response]: none of its three replacements applies. *)
Theorem tidy_response_plain_text (text : str) :
  ~ In 42%N text -> ~ In 10%N text ->
  tidy_response text = strip text.
Proof.
  intros Hstar Hnl. unfold tidy_response.
  destruct text as [|c text]; [reflexivity|]. cbn [truthy negb].
  assert (Hs : ~ In 42%N (strip (c :: text)))
    by (intros H; apply Hstar; now apply in_strip).
  assert (Hn : ~ In 10%N (strip (c :: text)))
    by (intros H; apply Hnl; now apply in_strip).
  rewrite (replace_absent _ (10%N :: of_string "-") _ 10%N);
    [|now left|exact Hn].
  rewrite (replace_absent _ (of_string "** ") _ 42%N); [|now left|exact Hs].
  rewrite (replace_absent _ (of_string " **") _ 42%N);
    [reflexivity|right; now left|exact Hs].
Qed.

Section Listing.

Context {L : Library}.

Lemma isfile_spec (w : World) (f : str) :
  isfile w f = true <->
  exists e, In e (cwd w) /\ entry_name e = f /\ entry_isfile e = true.
Proof.
  unfold isfile. rewrite existsb_exists. split.
  - intros (e & He & H). apply andb_prop in H. destruct H as [Hn Hf].
    apply text_eqb_eq in Hn. now exists e.
  - intros (e & He & Hn & Hf). exists e. split; [exact He|].
    rewrite Hf, andb_true_r. now apply text_eqb_eq.
Qed.

(** X3. [list_pdfs_in_cwd] returns exactly the names of the entries of the
    working directory that are regular files and whose name, in lower case,
    ends with [".pdf"]: a directory with such a name and a file with
    another extension are left out, an upper-case extension is accepted. It
    only lists the directory. *)
Theorem list_pdfs_in_cwd_sound_complete (w : World) :
  list_pdfs_in_cwd w = (Ok (pdfs_of w), set_trace (ListDir :: trace w) w) /\
  (forall f,
     In f (pdfs_of w) <->
     (exists e, In e (cwd w) /\ entry_name e = f /\ entry_isfile e = true) /\
     endswith (lower f) (of_string ".pdf") = true) /\
  List.length (pdfs_of w) <= List.length (cwd w).
Proof.
  split; [reflexivity|split].
  - intros f. unfold pdfs_of. rewrite filter_In, andb_true_iff, isfile_spec.
    split.
    + intros [_ H]. exact H.
    + intros [(e & He & Hn & Hf) Hs]. split; [|split; [now exists e|exact Hs]].
      apply (Permutation_in _ (Permutation_sym (sorted_perm _))).
      rewrite <- Hn. now apply in_map.
  - unfold pdfs_of.
    rewrite <- (length_map entry_name (cwd w)).
    rewrite <- (Permutation_length (sorted_perm (map entry_name (cwd w)))).
    apply filter_length_le.
Qed.

(** X4. The names [list_pdfs_in_cwd] returns are in increasing order of
    their code points, and the list does not depend on the order in which
    the directory is listed. *)
Theorem list_pdfs_in_cwd_sorted (w : World) :
  StronglySorted str_le (pdfs_of w) /\
  (forall files,
     Permutation files (cwd w) ->
     pdfs_of (set_cwd files w) = pdfs_of w).
Proof.
  split.
  - unfold pdfs_of. apply filter_sorted, sorted_sorted.
  - intros files Hperm. unfold pdfs_of. cbn [cwd set_cwd].
    assert (Hs : Text.sorted (map entry_name files) =
                 Text.sorted (map entry_name (cwd w))).
    { apply sorted_unique; try apply sorted_sorted.
      rewrite !sorted_perm. now apply Permutation_map. }
    rewrite Hs. apply filter_ext. intros f. f_equal.
    unfold isfile. cbn [cwd set_cwd].
    apply eq_true_iff_eq. rewrite !existsb_exists.
    split; intros (e & He & H); exists e; split; auto.
    + now apply (Permutation_in _ Hperm).
    + now apply (Permutation_in _ (Permutation_sym Hperm)).
Qed.

End Listing.

(** ** Further properties: the Text Extractor *)

Section MoreExtraction.

Context {L : Library}.

Lemma read_pdf_events (pdf : str) (docs : list Document) (w : World) :
  read_pdf pdf docs w =
  (Ok (docs ++ file_docs w pdf), set_trace (file_events w pdf ++ trace w) w).
Proof.
  unfold read_pdf, file_docs, file_events, file_error. run.
  destruct (PdfReader w pdf) as [e|pages].
  - run. now rewrite app_nil_r.
  - rewrite read_pages_acc.
    destruct (snd (read_pages pdf 0 pages [])) as [e|]; now run.
Qed.

Lemma load_docs_loop_events (pdf_files : list str) :
  forall (docs : list Document) (w : World),
    load_docs_loop pdf_files docs w =
    (Ok (docs ++ docs_of w pdf_files),
     set_trace (load_events w pdf_files ++ trace w) w).
Proof.
  unfold load_events.
  induction pdf_files as [|pdf rest IH]; intros docs w.
  - cbn. rewrite app_nil_r. unfold ret. destruct w; reflexivity.
  - cbn [load_docs_loop]. unfold bind at 1.
    rewrite read_pdf_events, IH. cbn [rev docs_of flat_map].
    rewrite flat_map_app. cbn [flat_map]. rewrite app_nil_r.
    rewrite <- !app_assoc. reflexivity.
Qed.

Lemma load_docs_from_files_events (pdf_files : list str) (w : World) :
  load_docs_from_files pdf_files w =
  (Ok (docs_of w pdf_files),
   set_trace (load_events w pdf_files ++ trace w) w).
Proof. apply (load_docs_loop_events pdf_files [] w). Qed.

Lemma in_file_events_warning (w : World) (pdf msg : str) :
  In (Warning msg) (file_events w pdf) <->
  exists e, file_error w pdf = Some e /\ msg = could_not_read pdf e.
Proof.
  unfold file_events. destruct (file_error w pdf) as [e|]; cbn.
  - split.
    + intros [[= <-]|[|[]]]; [|discriminate]. now exists e.
    + intros (e' & [= <-] & ->). now left.
  - split; [intros [|[]]; discriminate|]. now intros (e & He & _).
Qed.

Lemma filter_open_file_events (w : World) (pdf : str) :
  filter is_OpenPdf (file_events w pdf) = [OpenPdf pdf].
Proof. unfold file_events. now destruct (file_error w pdf). Qed.

Lemma load_events_open (w : World)
  (pdf_files : list str) :
  filter is_OpenPdf (load_events w pdf_files) = map OpenPdf (rev pdf_files).
Proof.
  unfold load_events.
  induction (rev pdf_files) as [|pdf l IH]; [reflexivity|].
  cbn [flat_map map]. rewrite filter_app, filter_open_file_events, IH.
  reflexivity.
Qed.

(** X5. [load_docs_from_files] never raises and touches nothing but the
    trace: for every list of files it returns the Documents of the files in
    order, opens each file once, in order, and shows one warning for each
    file whose reading raised, with the file name and the text of the
    exception. *)
Theorem load_docs_from_files_never_raises (w : World)
  (pdf_files : list str) :
  load_docs_from_files pdf_files w =
  (Ok (docs_of w pdf_files),
   set_trace (load_events w pdf_files ++ trace w) w) /\
  filter is_OpenPdf (load_events w pdf_files) =
  map OpenPdf (rev pdf_files) /\
  (forall msg,
     In (Warning msg) (load_events w pdf_files) <->
     exists pdf e,
       In pdf pdf_files /\ file_error w pdf = Some e /\
       msg = could_not_read pdf e) /\
  (forall ev,
     In ev (load_events w pdf_files) ->
     is_OpenPdf ev = true \/ is_Warning ev = true).
Proof.
  split; [apply load_docs_from_files_events|]. unfold load_events.
  split; [|split].
  - apply load_events_open.
  - intros msg. rewrite in_flat_map. split.
    + intros (pdf & Hin & Hw). apply in_file_events_warning in Hw.
      destruct Hw as (e & He & ->). exists pdf, e.
      split; [now apply in_rev|auto].
    + intros (pdf & e & Hin & He & ->). exists pdf.
      split; [now apply in_rev in Hin|].
      apply in_file_events_warning. now exists e.
  - intros ev. rewrite in_flat_map. intros (pdf & _ & Hev).
    unfold file_events in Hev.
    destruct (file_error w pdf); cbn in Hev;
      repeat destruct Hev as [<-|Hev]; auto; easy.
Qed.

(** X6. A file that [PdfReader] cannot open contributes no Document and
    does not disturb the others: the Documents are those of the list
    without that file. *)
Theorem unreadable_file_is_skipped (w : World) (before after : list str)
  (bad : str) (e : exn) :
  PdfReader w bad = ReaderRaises e ->
  fst (load_docs_from_files (before ++ bad :: after) w) =
  fst (load_docs_from_files (before ++ after) w) /\
  In (Warning (could_not_read bad e))
    (trace (snd (load_docs_from_files (before ++ bad :: after) w))).
Proof.
  intros Hbad. rewrite !load_docs_from_files_events. cbn [fst snd]. split.
  - f_equal. unfold docs_of. rewrite !flat_map_app. cbn [flat_map].
    unfold file_docs at 2. now rewrite Hbad.
  - cbn. apply in_or_app. left. unfold load_events. rewrite in_flat_map.
    exists bad. split; [apply in_rev; rewrite rev_involutive|].
    + apply in_or_app. right. now left.
    + unfold file_events, file_error. rewrite Hbad. now left.
Qed.

Lemma extracted_texts_app_raises (texts : list (option str)) (e : exn)
  (rest : list extraction) :
  extracted_texts (map ExtractReturns texts ++ ExtractRaises e :: rest) =
  map extract_text_or_empty texts.
Proof.
  induction texts as [|t texts IH]; cbn; [reflexivity|]. now rewrite IH.
Qed.

Lemma extracted_texts_returns (texts : list (option str)) :
  extracted_texts (map ExtractReturns texts) = map extract_text_or_empty texts.
Proof.
  induction texts as [|t texts IH]; cbn; [reflexivity|]. now rewrite IH.
Qed.

Lemma read_pages_error_app (pdf : str) (texts : list (option str)) (e : exn)
  (rest : list extraction) :
  forall i docs,
    snd (read_pages pdf i (map ExtractReturns texts ++ ExtractRaises e :: rest)
           docs) = Some e.
Proof.
  induction texts as [|t texts IH]; intros i docs; cbn; [reflexivity|].
  apply IH.
Qed.

(** X7. When the extraction of a page raises, the reading of that file
    stops there with a warning, and the Documents of the pages before it
    are kept: the file contributes what a file made of those pages alone
    would, and nothing of the pages after. *)
Theorem pages_before_failure_are_kept (w : World) (pdf : str)
  (texts : list (option str)) (e : exn) (rest : list extraction) :
  PdfReader w pdf =
    ReaderPages (map ExtractReturns texts ++ ExtractRaises e :: rest) ->
  file_docs w pdf = pages_docs pdf 0 (map ExtractReturns texts) /\
  file_docs w pdf =
    map (page_document pdf)
      (filter (fun it => nonblank (snd it))
         (enumerate_from 0 (map extract_text_or_empty texts))) /\
  file_events w pdf = [Warning (could_not_read pdf e); OpenPdf pdf].
Proof.
  intros Hread. unfold file_docs, file_events, file_error. rewrite Hread.
  rewrite read_pages_error_app, !pages_docs_enumerate.
  now rewrite extracted_texts_app_raises, extracted_texts_returns.
Qed.

Lemma enumerate_from_cons (i : nat) (t : str) (texts : list str) :
  enumerate_from i (t :: texts) = (i, t) :: enumerate_from (S i) texts.
Proof. reflexivity. Qed.

Lemma pages_sorted (p : nat * str -> bool) (texts : list str) :
  forall i,
    StronglySorted lt
      (map (fun it : nat * str => fst it + 1) (filter p (enumerate_from i texts)))
    /\
    Forall (fun n => i < n)
      (map (fun it : nat * str => fst it + 1) (filter p (enumerate_from i texts))).
Proof.
  induction texts as [|t texts IH]; intros i.
  - split; constructor.
  - rewrite enumerate_from_cons. cbn [filter].
    destruct (IH (S i)) as [Hs Hf].
    assert (Hf' : Forall (fun n => i < n)
              (map (fun it : nat * str => fst it + 1)
                 (filter p (enumerate_from (S i) texts)))).
    { eapply Forall_impl; [|exact Hf]. cbn. intros; lia. }
    destruct (p (i, t)); [|now split].
    cbn [map fst]. split.
    + constructor; [exact Hs|].
      eapply Forall_impl; [|exact Hf]. cbn. intros; lia.
    + constructor; [lia|exact Hf'].
Qed.

(** X8. Within one file the page numbers of the Documents increase
    strictly: no two Documents of a file have the same page, and all have
    the file's base name as source. *)
Theorem file_docs_pages_increase (w : World) (pdf : str) :
  StronglySorted lt (map page (file_docs w pdf)) /\
  NoDup (map page (file_docs w pdf)) /\
  Forall (fun d => source d = basename pdf) (file_docs w pdf).
Proof.
  assert (Henum : file_docs w pdf =
     map (page_document pdf)
       (filter (fun it => nonblank (snd it))
          (enumerate_from 0 (page_texts w pdf)))).
  { unfold file_docs, page_texts.
    destruct (PdfReader w pdf) as [e|pages]; [reflexivity|].
    apply pages_docs_enumerate. }
  assert (Hs : StronglySorted lt (map page (file_docs w pdf))).
  { rewrite Henum, map_map. cbn [page page_document].
    apply (pages_sorted _ (page_texts w pdf) 0). }
  split; [exact Hs|split].
  - clear Henum. induction Hs as [|n l Hs IH Hn]; constructor; auto.
    intros Hin. rewrite Forall_forall in Hn. specialize (Hn n Hin). lia.
  - rewrite Henum. apply Forall_forall. intros d Hd.
    apply in_map_iff in Hd. now destruct Hd as (it & <- & _).
Qed.

End MoreExtraction.

(** ** Further properties: the Index Builder *)

Section MoreIndexBuilder.

Context {L : Library}.

#[local] Arguments list_pdfs_in_cwd : simpl never.
#[local] Arguments load_docs_from_files : simpl never.
#[local] Arguments _load_faiss : simpl never.
#[local] Arguments build_or_load_vectorstore : simpl never.
#[local] Arguments split_docs : simpl never.
#[local] Arguments docs_of : simpl never.
#[local] Arguments pdfs_of : simpl never.
#[local] Arguments load_events : simpl never.

Lemma build_or_load_vectorstore_fresh_run (api_key : str) (w : World) :
  vectorstore w = None ->
  build_or_load_vectorstore api_key w =
  (index_outcome api_key w,
   set_trace (build_events api_key w ++ trace w)
     (set_vectorstore (index_store api_key w) w)).
Proof.
  intros Hv.
  unfold build_or_load_vectorstore, index_store, index_outcome,
    isdir_vectorstore, build_events.
  unfold bind at 1. unfold gets at 1. rewrite Hv.
  unfold bind at 1. rewrite list_pdfs_in_cwd_run.
  change (pdfs_of (set_trace (ListDir :: trace w) w)) with (pdfs_of w).
  destruct (pdfs_of w) as [|pdf pdfs] eqn:Hp.
  - unfold ret. cbn. f_equal. destruct w; cbn in *; now subst.
  - unfold bind at 1. rewrite load_docs_from_files_events.
    change (docs_of (set_trace (ListDir :: trace w) w) (pdf :: pdfs))
      with (docs_of w (pdf :: pdfs)).
    change (load_events (set_trace (ListDir :: trace w) w) (pdf :: pdfs))
      with (load_events w (pdf :: pdfs)).
    destruct (docs_of w (pdf :: pdfs)) as [|d docs].
    + unfold ret. cbn. rewrite <- app_assoc. f_equal.
      destruct w; cbn in *; now subst.
    + generalize (split_docs (d :: docs)). intros chunks.
      unfold persist, makedirs_vectorstore, isdir_vectorstore. run.
      rewrite Hv.
      destruct (FAISS_from_documents chunks api_key) as [vs|e]; run;
        [destruct (vectorstore_is_file w); run|].
      * rewrite <- app_assoc. f_equal. destruct w; cbn in *; now subst.
      * rewrite <- app_assoc. reflexivity.
      * rewrite <- app_assoc. f_equal. destruct w; cbn in *; now subst.
Qed.


Lemma filter_app_nil {A : Type} (p : A -> bool) (l1 l2 : list A) :
  filter p l1 = [] -> filter p l2 = [] -> filter p (l1 ++ l2) = [].
Proof. intros H1 H2. now rewrite filter_app, H1, H2. Qed.

Lemma load_events_no (p : event -> bool) (w : World) (pdf_files : list str) :
  (forall pdf, p (OpenPdf pdf) = false) ->
  (forall msg, p (Warning msg) = false) ->
  filter p (load_events w pdf_files) = [].
Proof.
  intros Ho Hw. unfold load_events.
  induction (rev pdf_files) as [|pdf l IH]; [reflexivity|].
  cbn [flat_map]. apply filter_app_nil; [|exact IH].
  unfold file_events. destruct (file_error w pdf); cbn;
    now rewrite ?Ho, ?Hw.
Qed.


End MoreIndexBuilder.

(** ** Further properties: the session *)

Section MoreSession.

Context {L : Library}.

#[local] Arguments build_or_load_vectorstore : simpl never.
#[local] Arguments get_api_key : simpl never.
#[local] Arguments ensure_conversation : simpl never.
#[local] Arguments tidy_response : simpl never.
#[local] Arguments build_events : simpl never.
#[local] Arguments index_outcome : simpl never.
#[local] Arguments index_store : simpl never.
#[local] Arguments load_events : simpl never.
#[local] Arguments split_docs : simpl never.
#[local] Arguments docs_of : simpl never.
#[local] Arguments pdfs_of : simpl never.

Lemma build_events_no_load (api_key : str) (w : World) :
  filter is_LoadLocal (build_events api_key w) = [].
Proof.
  unfold build_events.
  assert (Hno : forall pdfs,
            filter is_LoadLocal (load_events w pdfs ++ [ListDir]) = []).
  { intros pdfs. apply filter_app_nil; [|reflexivity].
    now apply load_events_no. }
  destruct (pdfs_of w) as [|pdf pdfs]; [reflexivity|].
  destruct (docs_of w (pdf :: pdfs)) as [|d docs]; [apply Hno|].
  destruct (FAISS_from_documents _ api_key);
    [destruct (vectorstore_is_file w)|]; cbn; apply Hno.
Qed.

(** X11. Once a build has returned an index, the next call loads what was
    saved instead of building: in any world that holds the directory the
    build left, whatever PDFs are there by then, the value is what
    [FAISS.load_local] makes of the saved files, and only
    [FAISS.load_local] is called. *)
Theorem existing_index_wins_after_build (api_key api_key' : str)
  (w w' : World) (vs : FAISS) :
  vectorstore w = None ->
  fst (build_or_load_vectorstore api_key w) = Ok (Some vs) ->
  vectorstore w' = vectorstore (snd (build_or_load_vectorstore api_key w)) ->
  exists evs,
    build_or_load_vectorstore api_key' w' =
    (match load_outcome (Some (save_local vs)) api_key' with
     | Ok vs' => Ok (Some vs')
     | Raise e => Raise e
     end,
     set_trace (evs ++ trace w') w') /\
    forallb is_LoadLocal evs = true.
Proof.
  intros Hv Hb Hw'.
  rewrite (build_or_load_vectorstore_fresh_run api_key w Hv) in Hb, Hw'.
  cbn in Hb, Hw'. unfold index_store in Hw'. rewrite Hv, Hb in Hw'.
  destruct (build_or_load_vectorstore_run api_key' w') as (evs & -> & Hevs).
  exists evs. split.
  - unfold index_store, index_outcome. rewrite Hw'. cbn.
    f_equal. destruct w'; cbn in *; now subst.
  - apply Hevs. unfold isdir_vectorstore. now rewrite Hw'.
Qed.

(** X12. Without a key (no override and no environment variable, or white
    space only) and without a chain, [ensure_conversation] sets the status
    [missing_key] and reads no file: it neither lists the directory nor
    loads the index, so it returns normally even when the index directory
    cannot be loaded. *)
Theorem ensure_conversation_without_key (w : World) :
  conversation (session_state w) = None ->
  truthy (api_key_of w) = false ->
  exists evs,
    ensure_conversation w =
    (Ok tt,
     set_trace (evs ++ trace w)
       (set_session (set_rag_status "missing_key" (session_state w)) w)) /\
    (evs = [] \/ evs = [Getenv]).
Proof.
  intros Hc Hk. unfold ensure_conversation.
  unfold bind at 1. unfold gets at 1. rewrite Hc.
  unfold bind at 1. rewrite get_api_key_run, Hk. cbn [negb].
  destruct (truthy (get_or_empty _)).
  - exists []. split; [reflexivity|now left].
  - exists [Getenv]. split; [reflexivity|now right].
Qed.


Lemma build_events_no_rmtree (api_key : str) (w : World) :
  ~ In Rmtree (build_events api_key w).
Proof.
  intros Hin.
  assert (Hf : In Rmtree
                 (filter (fun ev => match ev with
                                    | Rmtree => true
                                    | _ => false
                                    end) (build_events api_key w)))
    by (apply filter_In; auto).
  revert Hf. unfold build_events.
  assert (Hno : forall pdfs,
            filter (fun ev => match ev with Rmtree => true | _ => false end)
              (load_events w pdfs ++ [ListDir]) = []).
  { intros pdfs. apply filter_app_nil; [|reflexivity].
    now apply load_events_no. }
  destruct (pdfs_of w) as [|pdf pdfs]; [cbn; easy|].
  destruct (docs_of w (pdf :: pdfs)); [now rewrite Hno|].
  destruct (FAISS_from_documents _ api_key);
    [destruct (vectorstore_is_file w)|]; cbn; now rewrite Hno.
Qed.

Lemma only_load_events (evs : list event) :
  forallb is_LoadLocal evs = true ->
  ~ In Rmtree evs /\ filter is_FromDocuments evs = [] /\
  existsb writes_index evs = false.
Proof.
  induction evs as [|ev evs IH]; cbn; [easy|].
  intros H. apply andb_prop in H. destruct H as [Hev H].
  destruct (IH H) as (H1 & H2 & H3).
  destruct ev; try discriminate. cbn. repeat split; auto.
  intros [Hin|Hin]; [discriminate|auto].
Qed.

(** What [build_or_load_vectorstore] does, by kind of event: it never
    removes the directory; without a directory it does not load; with one
    it neither embeds nor writes. *)
Lemma build_or_load_vectorstore_kinds (api_key : str) (w : World) :
  exists evs,
    build_or_load_vectorstore api_key w =
    (index_outcome api_key w,
     set_trace (evs ++ trace w)
       (set_vectorstore (index_store api_key w) w)) /\
    ~ In Rmtree evs /\
    (vectorstore w = None -> filter is_LoadLocal evs = []) /\
    (isdir_vectorstore w = true ->
     filter is_FromDocuments evs = [] /\ existsb writes_index evs = false).
Proof.
  destruct (vectorstore w) as [d|] eqn:Hv.
  - destruct (build_or_load_vectorstore_run api_key w) as (evs & Hrun & Hl).
    exists evs. split; [exact Hrun|].
    assert (Hdir : isdir_vectorstore w = true)
      by (unfold isdir_vectorstore; now rewrite Hv).
    destruct (only_load_events evs (Hl Hdir)) as (H1 & H2 & H3).
    repeat split; auto. discriminate.
  - exists (build_events api_key w).
    split; [now apply build_or_load_vectorstore_fresh_run|].
    split; [apply build_events_no_rmtree|].
    split; [intros _; apply build_events_no_load|].
    unfold isdir_vectorstore. rewrite Hv. discriminate.
Qed.

Lemma rmtree_step (w : World) :
  (if isdir_vectorstore w then rmtree_vectorstore else ret tt) w =
  (Ok tt,
   set_trace ((if isdir_vectorstore w then [Rmtree] else []) ++ trace w)
     (after_rmtree w)).
Proof.
  unfold isdir_vectorstore, rmtree_vectorstore, after_rmtree.
  destruct (vectorstore w) as [d|] eqn:Hv; run.
  - now rewrite Hv.
  - f_equal. destruct w; cbn in *; now subst.
Qed.

Lemma rebuild_knowledge_base_run (w : World) :
  truthy (api_key_of w) = true ->
  exists evs,
    rebuild_knowledge_base w =
    (match index_outcome (api_key_of w) (after_rmtree w) with
     | Raise e => Raise e
     | Ok _ => Ok tt
     end,
     set_trace (evs ++ trace w)
       (set_session
          (match index_outcome (api_key_of w) (after_rmtree w) with
           | Ok (Some vs) =>
               set_rag_status "ready"
                 (set_conversation (Some (make_chain vs (api_key_of w)))
                    (session_state w))
           | _ => session_state w
           end)
          (set_vectorstore
             (index_store (api_key_of w) (after_rmtree w))
             (after_rmtree w)))) /\
    (In Rmtree evs <-> isdir_vectorstore w = true) /\
    (vectorstore (after_rmtree w) = None -> filter is_LoadLocal evs = []) /\
    (isdir_vectorstore (after_rmtree w) = true ->
     filter is_FromDocuments evs = [] /\ existsb writes_index evs = false).
Proof.
  intros Hk.
  unfold rebuild_knowledge_base. unfold bind at 1.
  rewrite get_api_key_run. rewrite Hk. cbn [negb].
  set (e0 := if truthy _ then [] else [Getenv]).
  assert (He0 : e0 = [] \/ e0 = [Getenv]).
  { subst e0.
    destruct (truthy (get_or_empty
                        (OPENAI_API_KEY_OVERRIDE (session_state w))));
      auto. }
  unfold bind at 1. unfold gets at 1.
  change (isdir_vectorstore (set_trace (e0 ++ trace w) w))
    with (isdir_vectorstore w).
  unfold bind at 1.
  pose proof (rmtree_step (set_trace (e0 ++ trace w) w)) as Hstep.
  change (isdir_vectorstore (set_trace (e0 ++ trace w) w))
    with (isdir_vectorstore w) in Hstep.
  rewrite Hstep. clear Hstep.
  set (rm := if isdir_vectorstore w then [Rmtree] else []).
  assert (Hrm : In Rmtree rm <-> isdir_vectorstore w = true).
  { subst rm. destruct (isdir_vectorstore w); cbn; intuition discriminate. }
  unfold bind at 1.
  match goal with
  | |- context [build_or_load_vectorstore ?k ?w1] =>
      destruct (build_or_load_vectorstore_kinds k w1)
        as (bevs & -> & Hb1 & Hb2 & Hb3);
      change (index_outcome k w1)
        with (index_outcome k (after_rmtree w)) in *;
      change (index_store k w1)
        with (index_store k (after_rmtree w)) in *;
      change (vectorstore w1) with (vectorstore (after_rmtree w)) in *;
      change (isdir_vectorstore w1)
        with (isdir_vectorstore (after_rmtree w)) in *
  end.
  assert (Hclass : forall tail,
            (forall ev, In ev tail ->
               exists msg, ev = SuccessBox msg \/ ev = ErrorBox msg) ->
            (In Rmtree (tail ++ bevs ++ rm ++ e0) <->
             isdir_vectorstore w = true) /\
            (vectorstore (after_rmtree w) = None ->
             filter is_LoadLocal (tail ++ bevs ++ rm ++ e0) = []) /\
            (isdir_vectorstore (after_rmtree w) = true ->
             filter is_FromDocuments (tail ++ bevs ++ rm ++ e0) = [] /\
             existsb writes_index (tail ++ bevs ++ rm ++ e0) = false)).
  { intros tail Htail.
    assert (Hp : forall p : event -> bool,
              (forall msg, p (SuccessBox msg) = false) ->
              (forall msg, p (ErrorBox msg) = false) ->
              p Rmtree = false -> p Getenv = false ->
              filter p bevs = [] ->
              filter p (tail ++ bevs ++ rm ++ e0) = []).
    { intros p Hs He Hr Hg Hbv.
      repeat apply filter_app_nil; auto.
      - induction tail as [|ev tail IH]; [reflexivity|]. cbn.
        destruct (Htail ev (or_introl eq_refl)) as (msg & [->| ->]);
          rewrite ?Hs, ?He; apply IH; intros ev' Hin; apply Htail;
          now right.
      - subst rm. destruct (isdir_vectorstore w); cbn; now rewrite ?Hr.
      - destruct He0 as [-> | ->]; cbn; now rewrite ?Hg. }
    split; [|split].
    - rewrite !in_app_iff. split.
      + intros [H|[H|[H|H]]].
        * destruct (Htail _ H) as (msg & [H'|H']); discriminate.
        * now destruct (Hb1 H).
        * now apply Hrm.
        * destruct He0 as [-> | ->]; cbn in H; intuition discriminate.
      + intros H. right. right. left. now apply Hrm.
    - intros Hv. apply Hp; auto.
    - intros Hd. destruct (Hb3 Hd) as [H1 H2]. split; [apply Hp; auto|].
      destruct (existsb writes_index (tail ++ bevs ++ rm ++ e0)) eqn:Hex;
        [|reflexivity].
      apply existsb_exists in Hex. destruct Hex as (ev & Hin & Hev).
      assert (Hf : In ev (filter writes_index (tail ++ bevs ++ rm ++ e0)))
        by (apply filter_In; auto).
      rewrite Hp in Hf; auto; [easy|].
      destruct (filter writes_index bevs) as [|ev' l] eqn:Hfl;
        [reflexivity|].
      assert (Hin' : In ev' (filter writes_index bevs))
        by (rewrite Hfl; now left).
      apply filter_In in Hin'. destruct Hin' as [Hi Hw].
      assert (Hex' : existsb writes_index bevs = true)
        by (apply existsb_exists; now exists ev').
      congruence. }
  destruct (index_outcome (api_key_of w) (after_rmtree w)) as [[vs|]|e];
    run.
  - eexists (SuccessBox _ :: bevs ++ rm ++ e0). split.
    + cbn [app]. rewrite <- !app_assoc. reflexivity.
    + apply (Hclass [SuccessBox _]). intros ev [<-|[]]. eexists. now left.
  - eexists (ErrorBox _ :: bevs ++ rm ++ e0). split.
    + cbn [app]. rewrite <- !app_assoc. reflexivity.
    + apply (Hclass [ErrorBox _]). intros ev [<-|[]]. eexists. now right.
  - exists (bevs ++ rm ++ e0). split.
    + rewrite <- !app_assoc. reflexivity.
    + apply (Hclass []). intros ev [].
Qed.

Lemma rebuild_knowledge_base_keyless_run (w : World) :
  truthy (api_key_of w) = false ->
  rebuild_knowledge_base w =
  (Ok tt,
   set_trace
     (ErrorBox (of_string "Set OPENAI_API_KEY in Settings first.")
      :: (if truthy (get_or_empty (OPENAI_API_KEY_OVERRIDE (session_state w)))
          then [] else [Getenv]) ++ trace w) w).
Proof.
  intros Hk. unfold rebuild_knowledge_base. unfold bind at 1.
  now rewrite get_api_key_run, Hk.
Qed.

(** X14. Without a key the rebuild button only shows an error: the index
    directory is not deleted, and session and files are as before. *)
Theorem rebuild_without_key_changes_nothing (w : World) :
  truthy (api_key_of w) = false ->
  exists evs,
    rebuild_knowledge_base w = (Ok tt, set_trace (evs ++ trace w) w) /\
    In (ErrorBox (of_string "Set OPENAI_API_KEY in Settings first.")) evs /\
    ~ In Rmtree evs.
Proof.
  intros Hk. rewrite (rebuild_knowledge_base_keyless_run w Hk).
  destruct (truthy (get_or_empty _)).
  - eexists [_]. split; [reflexivity|]. split; [now left|].
    intros [H|[]]. discriminate.
  - eexists [_; Getenv]. split; [reflexivity|]. split; [now left|].
    intros [H|[H|[]]]; discriminate.
Qed.



End MoreSession.

(** ** Further properties: the chat *)

Lemma exchanges_app (n : nat) :
  forall l m,
    List.length l <= n -> exchanges l = true ->
    exchanges (l ++ m) = exchanges m.
Proof.
  induction n as [|n IH]; intros [|u [|a l]] m Hlen Hl; cbn in *;
    try reflexivity; try discriminate; try lia.
  apply andb_prop in Hl. destruct Hl as [-> Hl]. cbn.
  apply IH; [lia|exact Hl].
Qed.

Lemma exchanges_snoc (l : list Message) (q a : str) :
  exchanges l = true ->
  exchanges (l ++ [mkMessage "user" q; mkMessage "assistant" a]) = true.
Proof.
  intros Hl. now rewrite (exchanges_app (List.length l) l _ (le_n _) Hl).
Qed.

Lemma lstrip_app_spaces (sp s : str) :
  forallb isspace sp = true -> lstrip (sp ++ s) = lstrip s.
Proof.
  induction sp as [|c sp IH]; cbn; [reflexivity|].
  intros H. apply andb_prop in H. destruct H as [-> H]. auto.
Qed.

Lemma strip_padded (sp1 k sp2 : str) :
  forallb isspace sp1 = true -> forallb isspace sp2 = true ->
  starts_nonspace k -> ends_nonspace k ->
  strip (sp1 ++ k ++ sp2) = k.
Proof.
  intros H1 H2 Hs He. unfold strip, rstrip.
  rewrite (lstrip_app_spaces sp1 _ H1).
  rewrite (lstrip_fixed (k ++ sp2)).
  - rewrite rev_app_distr, lstrip_app_spaces.
    + apply ends_nonspace_rev in He. rewrite (lstrip_fixed _ He).
      apply rev_involutive.
    + rewrite forallb_forall in *. intros c Hc. apply H2. now apply in_rev.
  - destruct Hs as (c & k' & -> & Hc). now exists c, (k' ++ sp2).
Qed.

Section MoreChat.

Context {L : Library}.

#[local] Arguments tidy_response : simpl never.
#[local] Arguments get_api_key : simpl never.
#[local] Arguments ensure_conversation : simpl never.
#[local] Arguments rebuild_knowledge_base : simpl never.
#[local] Arguments build_or_load_vectorstore : simpl never.
#[local] Arguments index_outcome : simpl never.
#[local] Arguments index_store : simpl never.

(** X17. The key [get_api_key] returns has no white space around it, and
    white space typed or pasted around a key is ignored: an override made
    of a key with white space before and after gives that key, whatever the
    environment holds. *)
Theorem get_api_key_ignores_padding (w : World) (sp1 k sp2 : str) :
  OPENAI_API_KEY_OVERRIDE (session_state w) = Some (sp1 ++ k ++ sp2) ->
  forallb isspace sp1 = true -> forallb isspace sp2 = true ->
  starts_nonspace k -> ends_nonspace k ->
  fst (get_api_key w) = Ok k /\
  (forall w0 k0, fst (get_api_key w0) = Ok k0 -> trimmed k0).
Proof.
  intros Ho H1 H2 Hs He. split.
  - rewrite get_api_key_run. cbn [fst]. unfold api_key_of, py_or.
    rewrite Ho. cbn [get_or_empty].
    assert (Ht : truthy (sp1 ++ k ++ sp2) = true).
    { destruct Hs as (c & k' & -> & _). now destruct sp1. }
    rewrite Ht. f_equal. now apply strip_padded.
  - intros w0 k0. rewrite get_api_key_run. cbn [fst]. intros [= <-].
    apply strip_trimmed.
Qed.

(** X18. Whatever the state and the question, the submit handler only
    appends to the message log: either nothing, or the question as a user
    message followed by one assistant message. A log made of user-assistant
    exchanges stays one. Status, input key, key override, files,
    environment and clock are never changed by it. *)
Theorem chat_submit_appends_exchange (submitted : bool) (q : str)
  (w : World) :
  let w' := snd (chat_submit submitted q w) in
  (messages (session_state w') = messages (session_state w) \/
   exists a,
     messages (session_state w') =
     messages (session_state w) ++
     [mkMessage "user" q; mkMessage "assistant" a]) /\
  (exchanges (messages (session_state w)) = true ->
   exchanges (messages (session_state w')) = true) /\
  rag_status (session_state w') = rag_status (session_state w) /\
  input_key (session_state w') = input_key (session_state w) /\
  OPENAI_API_KEY_OVERRIDE (session_state w') =
    OPENAI_API_KEY_OVERRIDE (session_state w) /\
  same_surroundings w w'.
Proof.
  destruct (submitted && truthy (strip q)) eqn:Hq.
  - apply andb_prop in Hq. destruct Hq as [-> Hq].
    destruct (conversation (session_state w)) as [c|] eqn:Hc.
    + rewrite (chat_submit_chain q w c Hq Hc). cbn.
      split; [right; eexists; reflexivity|].
      split; [apply exchanges_snoc|]. now repeat split.
    + rewrite (chat_submit_no_chain q w Hq Hc). cbn.
      split; [right; eexists; reflexivity|].
      split; [apply exchanges_snoc|]. now repeat split.
  - rewrite (chat_submit_blank submitted q w Hq). cbn.
    split; [now left|]. now repeat split.
Qed.

(** X19. Two questions in a row in a session with a chain: the log gains,
    in order, the first question, its answer, the second question and its
    answer; the second question is put to the chain as the first call left
    it; an answer is [tidy_response] of what the chain returned, or of
    ["(no answer returned)"] when the result has no answer. *)
Theorem two_questions_in_sequence (q1 q2 : str) (w : World) (c : Chain) :
  conversation (session_state w) = Some c ->
  truthy (strip q1) = true -> truthy (strip q2) = true ->
  let c1 := fst (invoke c q1) in
  let w2 := snd (chat_submit true q2 (snd (chat_submit true q1 w))) in
  messages (session_state w2) =
    messages (session_state w) ++
    [mkMessage "user" q1;
     mkMessage "assistant" (tidy_response (answer_of (snd (invoke c q1))));
     mkMessage "user" q2;
     mkMessage "assistant" (tidy_response (answer_of (snd (invoke c1 q2))))]
  /\
  conversation (session_state w2) = Some (fst (invoke c1 q2)) /\
  trace w2 = Ask q2 :: Ask q1 :: trace w /\
  answer_of (Ok None) = of_string "(no answer returned)" /\
  (forall a, answer_of (Ok (Some a)) = a).
Proof.
  intros Hc H1 H2. cbn zeta.
  rewrite (chat_submit_chain q1 w c H1 Hc).
  match goal with
  | |- context [chat_submit true q2 ?w1] =>
      rewrite (chat_submit_chain q2 w1 (fst (invoke c q1)) H2 eq_refl)
  end.
  cbn. rewrite <- app_assoc. repeat split.
Qed.

(** X20. The button that clears the chat empties the message log and
    leaves the chain, with whatever it remembers, in place: the next
    question is put to the same chain, and the log then holds that single
    exchange. *)
Theorem clear_chat_history_keeps_chain (q : str) (w : World) (c : Chain) :
  conversation (session_state w) = Some c ->
  truthy (strip q) = true ->
  let w1 := snd (clear_chat_history w) in
  messages (session_state w1) = [] /\
  conversation (session_state w1) = Some c /\
  rag_status (session_state w1) = rag_status (session_state w) /\
  same_surroundings w w1 /\
  messages (session_state (snd (chat_submit true q w1))) =
    [mkMessage "user" q;
     mkMessage "assistant" (tidy_response (answer_of (snd (invoke c q))))] /\
  trace (snd (chat_submit true q w1)) =
    Ask q :: SuccessBox (of_string "Cleared.") :: trace w.
Proof.
  intros Hc Hq. cbn zeta.
  assert (Hclear : clear_chat_history w =
            (Ok tt,
             set_trace (SuccessBox (of_string "Cleared.") :: trace w)
               (set_session (set_messages [] (session_state w)) w)))
    by reflexivity.
  rewrite Hclear. cbn [snd].
  match goal with
  | |- context [chat_submit true q ?w1] =>
      rewrite (chat_submit_chain q w1 c Hq Hc)
  end.
  cbn. repeat split; auto.
Qed.

Lemma perform_keeps_invariants (a : action) (w : World) :
  exchanges (messages (session_state w)) = true /\
  ready_has_chain (session_state w) ->
  exchanges (messages (session_state (perform a w))) = true /\
  ready_has_chain (session_state (perform a w)).
Proof.
  intros [Hlog Hready]. destruct a as [|submitted q| | |v|files]; cbn [perform].
  - split; [|now apply ensure_conversation_keeps_invariant].
    destruct (ensure_conversation_run w) as (evs & ->). cbn.
    unfold ensure_outcome.
    destruct (conversation (session_state w)); cbn; [exact Hlog|].
    destruct (truthy (api_key_of w)); cbn; [|exact Hlog].
    now destruct (index_outcome (api_key_of w) w) as [[vs|]|e].
  - destruct (submitted && truthy (strip q)) eqn:Hq.
    + apply andb_prop in Hq. destruct Hq as [-> Hq].
      destruct (conversation (session_state w)) as [c|] eqn:Hc.
      * rewrite (chat_submit_chain q w c Hq Hc). cbn.
        split; [now apply exchanges_snoc|].
        intros Hr. discriminate.
      * rewrite (chat_submit_no_chain q w Hq Hc). cbn.
        split; [now apply exchanges_snoc|].
        intros Hr. apply Hready in Hr. now rewrite Hc in Hr.
    + now rewrite (chat_submit_blank submitted q w Hq).
  - destruct (truthy (api_key_of w)) eqn:Hk.
    + destruct (rebuild_knowledge_base_run w Hk) as (evs & -> & _). cbn.
      destruct (index_outcome _ _) as [[vs|]|e]; cbn; split; auto.
      intros _. discriminate.
    + rewrite (rebuild_knowledge_base_keyless_run w Hk). now split.
  - cbn. split; [reflexivity|exact Hready].
  - cbn. now split.
  - cbn. now split.
Qed.

(** X21. In every session the script can reach from a fresh one, by any
    sequence of initialisations, questions, rebuilds, clearings, key edits
    and changes of the files, the message log is made of user-assistant
    exchanges, and the status [ready] comes with a chain. *)
Theorem reachable_sessions_are_consistent (actions : list action)
  (w : World) :
  session_state w = init_session ->
  exchanges (messages (session_state (perform_all actions w))) = true /\
  (rag_status (session_state (perform_all actions w)) = "ready"%string ->
   exists c,
     conversation (session_state (perform_all actions w)) = Some c).
Proof.
  intros Hinit.
  assert (H0 : exchanges (messages (session_state w)) = true /\
               ready_has_chain (session_state w)).
  { rewrite Hinit. split; [reflexivity|]. intros H. discriminate. }
  assert (H : exchanges (messages (session_state (perform_all actions w)))
              = true /\
              ready_has_chain (session_state (perform_all actions w))).
  { unfold perform_all. clear Hinit. revert w H0.
    induction actions as [|a actions IH]; intros w H0; [exact H0|].
    cbn [fold_left]. apply IH. now apply perform_keeps_invariants. }
  destruct H as [Hlog Hready]. split; [exact Hlog|].
  intros Hr. apply Hready in Hr.
  destruct (conversation _) as [c|]; [now exists c|easy].
Qed.

End MoreChat.

(** ** Further properties: the photo directories *)

Lemma until_slash_app (a b : str) :
  ~ In 47%N a -> until_slash (a ++ 47%N :: b) = a.
Proof.
  induction a as [|c a IH]; cbn; intros H; [reflexivity|].
  destruct (N.eqb_spec c 47) as [->|_]; [now destruct H; left|].
  f_equal. apply IH. intros Hin. apply H. now right.
Qed.

Lemma until_slash_none (a : str) : ~ In 47%N a -> until_slash a = a.
Proof.
  induction a as [|c a IH]; cbn; intros H; [reflexivity|].
  destruct (N.eqb_spec c 47) as [->|_]; [now destruct H; left|].
  f_equal. apply IH. intros Hin. apply H. now right.
Qed.

Lemma basename_path_join (directory f : str) :
  ~ In 47%N f -> basename (path_join directory f) = f.
Proof.
  intros Hf.
  assert (Hrev : ~ In 47%N (rev f)) by (now rewrite <- in_rev).
  unfold path_join, basename.
  destruct (startswith f (of_string "/")) eqn:Hs.
  - destruct f as [|c f]; [discriminate|]. cbn in Hs.
    destruct (N.eqb_spec c 47) as [->|_]; [|discriminate].
    destruct Hf. now left.
  - destruct directory as [|d0 directory].
    + cbn. rewrite until_slash_none by exact Hrev. apply rev_involutive.
    + cbn [truthy negb orb].
      destruct (endswith (d0 :: directory) (of_string "/")) eqn:He.
      * unfold endswith in He. rewrite rev_app_distr.
        destruct (rev (d0 :: directory)) as [|c r]; [discriminate|].
        cbn in He. destruct (N.eqb_spec c 47) as [->|_]; [|discriminate].
        rewrite until_slash_app by exact Hrev. apply rev_involutive.
      * rewrite !rev_app_distr. cbn [of_string rev app].
        rewrite <- app_assoc. cbn [app].
        rewrite until_slash_app by exact Hrev. apply rev_involutive.
Qed.

(** X22. [list_images_from_dir] returns the empty list for a path that
    does not exist. For a directory it returns, for exactly the names that
    end with one of the four image extensions in lower case, the name
    joined to the directory path, in increasing order of the names; the
    base name of each path is the listed name. Entries are not checked to
    be files. *)
Theorem list_images_from_dir_lists_images (directory : str)
  (names : list str) :
  list_images_from_dir Missing directory = Ok [] /\
  (exists l,
     list_images_from_dir (Directory names) directory = Ok l /\
     (forall p,
        In p l <->
        exists f,
          In f names /\ endswith_any (lower f) exts = true /\
          p = path_join directory f) /\
     List.length l <= List.length names /\
     ((forall f, In f names -> ~ In 47%N f) ->
      map basename l =
        filter (fun f => endswith_any (lower f) exts) (Text.sorted names) /\
      StronglySorted str_le (map basename l))).
Proof.
  split; [reflexivity|].
  exists (image_paths directory names). split; [reflexivity|].
  unfold image_paths. split; [|split].
  - intros p. rewrite in_map_iff. split.
    + intros (f & <- & Hf). apply filter_In in Hf. destruct Hf as [Hin He].
      exists f. split; [|auto].
      now apply (Permutation_in _ (sorted_perm names)).
    + intros (f & Hin & He & ->). exists f. split; [reflexivity|].
      apply filter_In. split; [|exact He].
      now apply (Permutation_in _ (Permutation_sym (sorted_perm names))).
  - rewrite length_map, <- (Permutation_length (sorted_perm names)).
    apply filter_length_le.
  - intros Hslash.
    assert (Hb : map basename
                   (map (path_join directory)
                      (filter (fun f => endswith_any (lower f) exts)
                         (Text.sorted names))) =
                 filter (fun f => endswith_any (lower f) exts)
                   (Text.sorted names)).
    { rewrite map_map. rewrite <- (map_id (filter _ _)) at 2.
      apply map_ext_in. intros f Hf. apply basename_path_join.
      apply Hslash. apply filter_In in Hf.
      now apply (Permutation_in _ (sorted_perm names)). }
    rewrite Hb. split; [reflexivity|].
    apply filter_sorted, sorted_sorted.
Qed.

(** X23. [list_images] creates the photo directory when it is missing and
    then returns the empty list; whenever it returns, the path is a
    directory afterwards, a second call returns the same list and changes
    nothing, and the list is the one [list_images_from_dir] gives for
    [PHOTOS_DIR]. When the path is a regular file it raises and leaves the
    path as it is. *)
Theorem list_images_creates_directory (p : path_state) :
  list_images Missing = (Ok [], Directory []) /\
  (forall l p',
     list_images p = (Ok l, p') ->
     (exists names, p' = Directory names) /\
     list_images p' = (Ok l, p') /\
     list_images_from_dir p' PHOTOS_DIR = Ok l) /\
  (exists e, list_images RegularFile = (Raise e, RegularFile)).
Proof.
  split; [reflexivity|split].
  - intros l p'. destruct p as [| |names]; cbn.
    + intros [= <- <-]. split; [now exists []|]. now split.
    + discriminate.
    + intros [= <- <-]. split; [now exists names|]. now split.
  - now eexists.
Qed.

(** ** Further properties: from the first run to the first answer *)

Section FirstQuestion.

Context {L : Library}.

#[local] Arguments tidy_response : simpl never.
#[local] Arguments ensure_conversation : simpl never.
#[local] Arguments index_outcome : simpl never.
#[local] Arguments index_store : simpl never.

(** X24. Without a key and without a chain, whatever PDFs and index are
    there: after [ensure_conversation], a question is answered by the
    missing-key guidance, and the chain is not called. *)
Theorem missing_key_guidance (w : World) (q : str) :
  conversation (session_state w) = None ->
  truthy (api_key_of w) = false ->
  truthy (strip q) = true ->
  let w1 := snd (ensure_conversation w) in
  let w2 := snd (chat_submit true q w1) in
  rag_status (session_state w1) = "missing_key"%string /\
  messages (session_state w2) =
    messages (session_state w) ++
    [mkMessage "user" q; mkMessage "assistant" missing_key_message] /\
  trace w2 = trace w1 /\
  conversation (session_state w2) = None.
Proof.
  intros Hc Hk Hq. cbn zeta.
  destruct (ensure_conversation_run w) as (evs & ->). cbn [snd].
  unfold ensure_outcome. rewrite Hc, Hk. cbn [negb fst snd].
  rewrite chat_submit_no_chain by (cbn; auto). cbn. auto.
Qed.

(** X25. With a key and an index that builds or loads, the first question
    after [ensure_conversation] is put to the chain that
    [ensure_conversation] made of that index and key, and its answer is
    appended after the question. *)
Theorem first_question_uses_new_chain (w : World) (q : str) (vs : FAISS) :
  conversation (session_state w) = None ->
  truthy (api_key_of w) = true ->
  fst (build_or_load_vectorstore (api_key_of w) w) = Ok (Some vs) ->
  truthy (strip q) = true ->
  let c := make_chain vs (api_key_of w) in
  let w1 := snd (ensure_conversation w) in
  let w2 := snd (chat_submit true q w1) in
  messages (session_state w2) =
    messages (session_state w) ++
    [mkMessage "user" q;
     mkMessage "assistant" (tidy_response (answer_of (snd (invoke c q))))] /\
  trace w2 = Ask q :: trace w1 /\
  conversation (session_state w2) = Some (fst (invoke c q)) /\
  rag_status (session_state w2) = "ready"%string.
Proof.
  intros Hc Hk Hb Hq. cbn zeta.
  rewrite build_or_load_vectorstore_value in Hb.
  destruct (ensure_conversation_run w) as (evs & ->). cbn [snd].
  unfold ensure_outcome. rewrite Hc, Hk, Hb. cbn [negb fst snd].
  match goal with
  | |- context [chat_submit true q ?w1] =>
      rewrite (chat_submit_chain q w1 (make_chain vs (api_key_of w)) Hq
                 eq_refl)
  end.
  cbn. auto.
Qed.

End FirstQuestion.

(** ** Concrete runs *)

Import Demo.


Lemma failed_load_is_not_no_documents_witness :
  isdir_vectorstore corrupt_world = true /\
  fst (build_or_load_vectorstore demo_key corrupt_world) =
  Raise (OtherError (of_string "could not read index")).
Proof.
  split; [reflexivity|].
  destruct (failed_load_is_not_no_documents demo_key corrupt_world)
    as (_ & H & _).
  apply H; reflexivity.
Defined.

Lemma load_docs_from_files_skips_blank_pages_witness :
  nonblank soil = true /\
  file_docs fresh_world (of_string "soil.pdf") =
  [mkDocument soil (of_string "soil.pdf") 1].
Proof.
  split; [reflexivity|].
  destruct (load_docs_from_files_skips_blank_pages fresh_world [])
    as (_ & _ & _ & _ & H).
  apply (H (of_string "soil.pdf") soil); reflexivity.
Defined.


Lemma chat_submit_catches_chain_error_witness :
  conversation (session_state ready_world) =
    Some ([mkDocument soil (of_string "soil.pdf") 1], []) /\
  truthy (strip (of_string "!x")) = true /\
  fst (chat_submit true (of_string "!x") ready_world) = Ok true /\
  messages (session_state (snd (chat_submit true (of_string "!x")
                                  ready_world))) =
  [mkMessage "user" (of_string "!x");
   mkMessage "assistant" (of_string "(RAG error: provider unreachable)")].
Proof.
  split; [reflexivity|split; [reflexivity|]].
  destruct (chat_submit_catches_chain_error (of_string "!x") ready_world
              ([mkDocument soil (of_string "soil.pdf") 1], [])
              ([mkDocument soil (of_string "soil.pdf") 1], [])
              (OtherError (of_string "provider unreachable"))
              eq_refl eq_refl eq_refl) as (H1 & _ & H3 & _).
  split; [exact H1|].
  apply (H3 (of_string "provider unreachable")).
  - right. reflexivity.
  - intros H. cbn in H. intuition discriminate.
  - intros H. cbn in H. intuition discriminate.
Defined.



Lemma whitespace_override_hides_environment_key_witness :
  OPENAI_API_KEY blank_override_world = Some demo_key /\
  get_api_key blank_override_world = (Ok [], blank_override_world).
Proof.
  split; [reflexivity|].
  apply (whitespace_override_hides_environment_key blank_override_world
           (of_string " ") eq_refl); [discriminate|reflexivity].
Defined.

Lemma chat_submit_blank_question_is_noop_witness :
  chat_submit true (of_string "   ") ready_world = (Ok false, ready_world).
Proof.
  apply chat_submit_blank_question_is_noop. reflexivity.
Defined.

(** ** Concrete runs of the further properties *)

Import Samples.

Lemma tidy_response_trimmed_witness :
  tidy_response (of_string "  ") = [].
Proof.
  apply (proj2 (proj2 (tidy_response_trimmed (of_string "  ")))).
  reflexivity.
Defined.

Lemma tidy_response_plain_text_witness :
  tidy_response (of_string " Piles transfer load. ") =
  of_string "Piles transfer load.".
Proof.
  rewrite tidy_response_plain_text; [reflexivity| |];
    intros H; cbn in H; repeat destruct H as [H|H]; try discriminate H; easy.
Defined.

Lemma list_pdfs_in_cwd_sound_complete_witness :
  In (of_string "b.PDF") (pdfs_of mixed_world) /\
  ~ In (of_string "archive.pdf") (pdfs_of mixed_world).
Proof.
  destruct (list_pdfs_in_cwd_sound_complete mixed_world) as (_ & H & _).
  split.
  - apply H. split; [|reflexivity].
    exists (mkEntry (of_string "b.PDF") true (ReaderPages [])).
    split; [right; now left|now split].
  - intros Hin. apply H in Hin. destruct Hin as [(e & He & Hn & Hf) _].
    cbn in He. repeat destruct He as [<-|He]; try discriminate; easy.
Defined.

Lemma list_pdfs_in_cwd_sorted_witness :
  pdfs_of (set_cwd (rev mixed_files) mixed_world) =
  [of_string "a.pdf"; of_string "b.PDF"].
Proof.
  rewrite (proj2 (list_pdfs_in_cwd_sorted mixed_world) (rev mixed_files)).
  - reflexivity.
  - apply Permutation_sym, Permutation_rev.
Defined.

Lemma load_docs_from_files_never_raises_witness :
  fst (load_docs_from_files
         [of_string "broken.pdf"; of_string "soil.pdf"; of_string "torn.pdf"]
         broken_world) =
  Ok [mkDocument Demo.soil (of_string "soil.pdf") 1;
      mkDocument Demo.soil (of_string "torn.pdf") 1].
Proof.
  rewrite (proj1 (load_docs_from_files_never_raises broken_world _)).
  reflexivity.
Defined.

Lemma unreadable_file_is_skipped_witness :
  PdfReader broken_world (of_string "broken.pdf") =
    ReaderRaises (OtherError (of_string "EOF marker not found")) /\
  fst (load_docs_from_files
         [of_string "broken.pdf"; of_string "soil.pdf"] broken_world) =
  fst (load_docs_from_files [of_string "soil.pdf"] broken_world).
Proof.
  split; [reflexivity|].
  exact (proj1 (unreadable_file_is_skipped broken_world []
                  [of_string "soil.pdf"] (of_string "broken.pdf")
                  (OtherError (of_string "EOF marker not found"))
                  eq_refl)).
Defined.

Lemma pages_before_failure_are_kept_witness :
  file_docs broken_world (of_string "torn.pdf") =
  pages_docs (of_string "torn.pdf") 0 [ExtractReturns (Some Demo.soil)].
Proof.
  exact (proj1 (pages_before_failure_are_kept broken_world
                  (of_string "torn.pdf") [Some Demo.soil]
                  (OtherError (of_string "bad stream"))
                  [ExtractReturns (Some Demo.soil)] eq_refl)).
Defined.

Lemma file_docs_pages_increase_witness :
  NoDup (map page (file_docs fresh_world (of_string "soil.pdf"))).
Proof.
  exact (proj1 (proj2 (file_docs_pages_increase fresh_world
                         (of_string "soil.pdf")))).
Defined.



Lemma existing_index_wins_after_build_witness :
  pdfs_of emptied_world = [] /\
  exists evs,
    build_or_load_vectorstore demo_key emptied_world =
    (Ok (Some [mkDocument Demo.soil (of_string "soil.pdf") 1]),
     set_trace (evs ++ trace emptied_world) emptied_world).
Proof.
  split; [reflexivity|].
  destruct (existing_index_wins_after_build demo_key demo_key fresh_world
              emptied_world [mkDocument Demo.soil (of_string "soil.pdf") 1]
              eq_refl eq_refl eq_refl) as (evs & H & _).
  exists evs. exact H.
Defined.

Lemma ensure_conversation_without_key_witness :
  isdir_vectorstore keyless_world = true /\
  rag_status (session_state (snd (ensure_conversation keyless_world))) =
  "missing_key"%string.
Proof.
  split; [reflexivity|].
  destruct (ensure_conversation_without_key keyless_world eq_refl eq_refl)
    as (evs & -> & _).
  reflexivity.
Defined.


Lemma rebuild_without_key_changes_nothing_witness :
  truthy (api_key_of keyless_world) = false /\
  vectorstore (snd (rebuild_knowledge_base keyless_world)) =
  vectorstore keyless_world.
Proof.
  split; [reflexivity|].
  destruct (rebuild_without_key_changes_nothing keyless_world eq_refl)
    as (evs & -> & _).
  reflexivity.
Defined.



Lemma get_api_key_ignores_padding_witness :
  OPENAI_API_KEY padded_key_world = None /\
  fst (get_api_key padded_key_world) = Ok demo_key.
Proof.
  split; [reflexivity|].
  apply (get_api_key_ignores_padding padded_key_world (of_string " ")
           demo_key [10%N] eq_refl eq_refl eq_refl).
  - exists 115%N, (of_string "k-demo"). now split.
  - exists (of_string "sk-dem"), 111%N. now split.
Defined.

Lemma chat_submit_appends_exchange_witness :
  exchanges (messages (session_state ready_world)) = true /\
  exchanges
    (messages
       (session_state (snd (chat_submit true (of_string "hi") ready_world))))
  = true.
Proof.
  split; [reflexivity|].
  destruct (chat_submit_appends_exchange true (of_string "hi") ready_world)
    as (_ & H & _).
  exact (H eq_refl).
Defined.

Lemma two_questions_in_sequence_witness :
  trace (snd (chat_submit true (of_string "b")
                (snd (chat_submit true (of_string "a") ready_world)))) =
  Ask (of_string "b") :: Ask (of_string "a") :: trace ready_world.
Proof.
  destruct (two_questions_in_sequence (of_string "a") (of_string "b")
              ready_world
              ([mkDocument Demo.soil (of_string "soil.pdf") 1], [])
              eq_refl eq_refl eq_refl) as (_ & _ & H & _).
  exact H.
Defined.

Lemma clear_chat_history_keeps_chain_witness :
  conversation (session_state (snd (clear_chat_history ready_world))) =
  Some ([mkDocument Demo.soil (of_string "soil.pdf") 1], []).
Proof.
  destruct (clear_chat_history_keeps_chain (of_string "hi") ready_world
              ([mkDocument Demo.soil (of_string "soil.pdf") 1], [])
              eq_refl eq_refl) as (_ & H & _).
  exact H.
Defined.

Lemma reachable_sessions_are_consistent_witness :
  session_state fresh_world = init_session /\
  exchanges
    (messages
       (session_state
          (perform_all
             [Ensure; Submit true (of_string "hi"); ChangeFiles []; Rebuild;
              Submit true (of_string "!x"); Clear; TypeKey (of_string " ")]
             fresh_world))) = true.
Proof.
  split; [reflexivity|].
  exact (proj1 (reachable_sessions_are_consistent _ fresh_world eq_refl)).
Defined.

Lemma list_images_from_dir_lists_images_witness :
  list_images_from_dir (Directory photo_names) (of_string "photos") =
  Ok [of_string "photos/a.png"; of_string "photos/b.JPG"].
Proof.
  destruct (list_images_from_dir_lists_images (of_string "photos")
              photo_names) as (_ & l & Hl & _).
  rewrite Hl. f_equal. injection Hl as <-. reflexivity.
Defined.

Lemma list_images_creates_directory_witness :
  list_images (Directory []) = (Ok [], Directory []).
Proof.
  destruct (list_images_creates_directory Missing) as (_ & H & _).
  exact (proj1 (proj2 (H [] (Directory []) eq_refl))).
Defined.

Lemma missing_key_guidance_witness :
  truthy (api_key_of keyless_world) = false /\
  messages
    (session_state
       (snd (chat_submit true (of_string "hi")
               (snd (ensure_conversation keyless_world))))) =
  [mkMessage "user" (of_string "hi");
   mkMessage "assistant" missing_key_message].
Proof.
  split; [reflexivity|].
  exact (proj1 (proj2 (missing_key_guidance keyless_world (of_string "hi")
                         eq_refl eq_refl eq_refl))).
Defined.

Lemma first_question_uses_new_chain_witness :
  truthy (api_key_of fresh_world) = true /\
  rag_status
    (session_state
       (snd (chat_submit true (of_string "hi")
               (snd (ensure_conversation fresh_world))))) = "ready"%string.
Proof.
  split; [reflexivity|].
  destruct (first_question_uses_new_chain fresh_world (of_string "hi")
              [mkDocument Demo.soil (of_string "soil.pdf") 1]
              eq_refl eq_refl eq_refl eq_refl) as (_ & _ & _ & H).
  exact H.
Defined.
